(** * TinyGo: the SSA-to-LLVM lowering engine and its string runtime

    A shallow embedding of the parts of [compiler/compiler.go],
    [src/runtime/string.go] and [src/runtime/interface.go] that the
    specification's testable properties talk about, followed by the
    theorems that settle those properties.

    Layout of the development:
    - [Runtime]: the Go runtime helpers (strings, UTF-8, interfaces);
    - [types]: the fragment of [go/types] the compiler inspects;
    - [llvm]: LLVM types, values, instructions and the IR builder;
    - [Compiler]: the lowering functions, written over the builder;
    - [Machine]: an interpreter for the emitted instructions;
    - [Spec]: what the properties observe (readers, invariants) and the
      concrete programs of the closed examples;
    - [RuntimeProofs], [CompilerProofs]: the theorems. *)

From Stdlib Require Import ZArith Lia Bool List.
From stdpp Require Import base option list gmap strings.

Local Open Scope Z_scope.

#[local] Set Warnings "-register-all".


(** Outcome of a Go function that may panic. *)
Inductive outcome (A : Type) : Type :=
| Returns (a : A)
| Panics (msg : string).
Arguments Returns {A} a.
Arguments Panics {A} msg.

(** The compile errors of the specification (section 7), each raised by
    the source with a fixed message prefix. *)
Inductive error : Type :=
| UnsupportedType (msg : string)
| UnsupportedConstant (msg : string)
| UnsupportedInstruction (msg : string)
| UnsupportedBlockingReturn
| UnsupportedMapKey.

(** Result of a compiler function with Go's [(value, error)] convention;
    [Crash] is a Go run-time panic inside the compiler (a failed type
    assertion, an explicit [panic]). *)
Inductive result (A : Type) : Type :=
| Ok (a : A)
| Err (e : error)
| Crash (msg : string).
Arguments Ok {A} a.
Arguments Err {A} e.
Arguments Crash {A} msg.

#[global] Instance result_ret : MRet result := fun A a => Ok a.
#[global] Instance result_bind : MBind result := fun A B f r =>
  match r with Ok a => f a | Err e => Err e | Crash m => Crash m end.

(** A loop that calls [f] on each element in turn and stops at the first
    failure: [for _, x := range xs { y, err := f(x); if err != nil { return err } ... }]. *)
Fixpoint forM {A B : Type} (f : A -> result B) (xs : list A) : result (list B) :=
  match xs with
  | [] => Ok []
  | x :: xs' => y ← f x; ys ← forM f xs'; Ok (y :: ys)
  end.

(* ================================================================== *)
(** ** The runtime: [src/runtime/string.go], [src/runtime/interface.go] *)
(* ================================================================== *)

Module Runtime.

(** A Go [byte] is a [Z] in [0, 256); the conversion [byte(x)] keeps the
    low eight bits. *)
Definition byte_ (x : Z) : Z := x mod 256.

(** A Go [string] value, at the level [stringEqual], [stringLess] and
    [decodeUTF8] see it: [len(s)] and [s[i]]. *)
Abbreviation gostring := (list Z) (only parsing).

(** [s[i]] in a function marked [//go:nobounds]: no check is emitted, and
    a read past the end is not defined by the language.  The model makes
    such a read visible as [None]. *)
Definition index (s : gostring) (i : Z) : option Z :=
  if i <? 0 then None else s !! Z.to_nat i.

(** The loop of [stringEqual]: [for i := 0; i < len(x); i++], entered
    with [n] iterations to go. *)
Fixpoint stringEqual_loop (x y : gostring) (i : Z) (n : nat) : option bool :=
  match n with
  | O => Some true
  | S n' =>
      xi ← index x i; yi ← index y i;
      if negb (xi =? yi) then Some false
      else stringEqual_loop x y (i + 1) n'
  end.

(** [func stringEqual(x, y string) bool] *)
Definition stringEqual (x y : gostring) : option bool :=
  if negb (Z.of_nat (length x) =? Z.of_nat (length y)) then Some false
  else stringEqual_loop x y 0 (length x).

(** The loop of [stringLess]: [for i := 0; i < l; i++]; [None] stands
    for falling out of the loop. *)
Fixpoint stringLess_loop (x y : gostring) (i : Z) (n : nat) : option (option bool) :=
  match n with
  | O => Some None
  | S n' =>
      xi ← index x i; yi ← index y i;
      if xi <? yi then Some (Some true)
      else if xi >? yi then Some (Some false)
      else stringLess_loop x y (i + 1) n'
  end.

(** [func stringLess(x, y string) bool] *)
Definition stringLess (x y : gostring) : option bool :=
  let l := length x in
  let l := if (length y <? l)%nat then length y else l in
  r ← stringLess_loop x y 0 l;
  match r with
  | Some b => Some b
  | None => Some (Z.of_nat (length x) <? Z.of_nat (length y))
  end.

(** Go's comparison of strings: byte-wise lexicographic order.  This is
    the language-level meaning of [<] on strings, stated on its own so
    that the runtime helper can be compared with it. *)
Fixpoint lex_lt (x y : gostring) : bool :=
  match x, y with
  | _, [] => false
  | [], _ :: _ => true
  | a :: x', b :: y' => (a <? b) || ((a =? b) && lex_lt x' y')
  end.

(** The lexicographic order spelled out: [x] comes before [y] when [x]
    is a proper prefix of [y], or when the two differ first at a
    position where the byte of [x] is the smaller one. *)
Definition lexBefore (x y : gostring) : Prop :=
  (exists q, q <> [] /\ y = x ++ q) \/
  (exists p a b x' y', x = p ++ a :: x' /\ y = p ++ b :: y' /\ a < b).

(** What the loop of [stringLess] decides on the common prefix. *)
Fixpoint lex_prefix (x y : gostring) : option bool :=
  match x, y with
  | a :: x', b :: y' =>
      if a <? b then Some true else if a >? b then Some false else lex_prefix x' y'
  | _, _ => None
  end.

Section Widths.

(** Modelled from the spec: [lenType] is declared in the runtime's
    per-architecture files, which are not under src/.  The spec (section 3)
    makes it "32-bit on >=32-bit targets, equal to pointer width
    otherwise"; it is an unsigned integer of [lenBits] bits, and
    [uintptr] is one of [ptrBits] bits. *)
Variable lenBits : Z.
Variable ptrBits : Z.

Definition lenType (x : Z) : Z := x mod 2 ^ lenBits.
Definition uintptr (x : Z) : Z := x mod 2 ^ ptrBits.

(** [func encodeUTF8(x rune) ([4]byte, lenType)].  A [rune] is an
    [int32]; the shifts and masks below never leave its range. *)
Definition encodeUTF8 (x : Z) : list Z * Z :=
  if x <=? 0x7f then
    ([byte_ x; 0; 0; 0], 1)
  else if x <=? 0x7ff then
    let b1 := Z.lor 0xc0 (byte_ (Z.shiftr x 6)) in
    let b2 := Z.lor 0x80 (byte_ (Z.land x 0x3f)) in
    ([b1; b2; 0; 0], 2)
  else if x <=? 0xffff then
    let b1 := Z.lor 0xe0 (byte_ (Z.shiftr x 12)) in
    let b2 := Z.lor 0x80 (byte_ (Z.land (Z.shiftr x 6) 0x3f)) in
    let b3 := Z.lor 0x80 (byte_ (Z.land (Z.shiftr x 0) 0x3f)) in
    ([b1; b2; b3; 0], 3)
  else if x <=? 0x10ffff then
    let b1 := Z.lor 0xf0 (byte_ (Z.shiftr x 18)) in
    let b2 := Z.lor 0x80 (byte_ (Z.land (Z.shiftr x 12) 0x3f)) in
    let b3 := Z.lor 0x80 (byte_ (Z.land (Z.shiftr x 6) 0x3f)) in
    let b4 := Z.lor 0x80 (byte_ (Z.land (Z.shiftr x 0) 0x3f)) in
    ([b1; b2; b3; b4], 4)
  else
    ([0xef; 0xbf; 0xbd; 0], 3).

(** [func decodeUTF8(s string, index lenType) (rune, lenType)].  The
    index arithmetic is [lenType] arithmetic; [rune(b) << k] of a masked
    byte stays far below [2^31]. *)
Definition decodeUTF8 (s : gostring) (idx : Z) : option (Z * Z) :=
  let remaining := lenType (lenType (Z.of_nat (length s)) - idx) in
  x ← index s idx;
  if Z.land x 0x80 =? 0x00 then
    Some (x, 1)
  else if Z.land x 0xe0 =? 0xc0 then
    if remaining <? 2 then Some (0xfffd, 1)
    else
      s1 ← index s (lenType (idx + 1));
      Some (Z.lor (Z.shiftl (Z.land x 0x1f) 6) (Z.land s1 0x3f), 2)
  else if Z.land x 0xf0 =? 0xe0 then
    if remaining <? 3 then Some (0xfffd, 1)
    else
      s1 ← index s (lenType (idx + 1));
      s2 ← index s (lenType (idx + 2));
      Some (Z.lor (Z.lor (Z.shiftl (Z.land x 0x0f) 12)
                         (Z.shiftl (Z.land s1 0x3f) 6))
                  (Z.land s2 0x3f), 3)
  else if Z.land x 0xf8 =? 0xf0 then
    if remaining <? 4 then Some (0xfffd, 1)
    else
      s1 ← index s (lenType (idx + 1));
      s2 ← index s (lenType (idx + 2));
      s3 ← index s (lenType (idx + 3));
      Some (Z.lor (Z.lor (Z.lor (Z.shiftl (Z.land x 0x07) 18)
                                (Z.shiftl (Z.land s1 0x3f) 12))
                         (Z.shiftl (Z.land s2 0x3f) 6))
                  (Z.land s3 0x3f), 4)
  else
    Some (0xfffd, 1).

(** The underlying struct for the Go string type:
    [type _string struct { ptr *byte; length lenType }]. *)
Record _string : Type := mk_string { ptr : Z; length_ : Z }.

(** Modelled from the spec: the allocator and [memcpy] are runtime
    helpers that are not under src/ (the spec only names
    [runtime.alloc(size)]).  Memory is a total map from addresses to
    bytes together with the allocation frontier; [alloc] hands out the
    block that starts at the frontier, so the block is disjoint from
    everything allocated before, and [memcpy] copies [size] bytes. *)
Record heap : Type := mk_heap { bytes : Z -> Z; brk : Z }.

Definition alloc (h : heap) (size : Z) : Z * heap :=
  (brk h, mk_heap (bytes h) (brk h + size)).

Definition memcpy (h : heap) (dst src size : Z) : heap :=
  mk_heap (fun a => if (dst <=? a) && (a <? dst + size)
                    then bytes h (src + (a - dst)) else bytes h a)
          (brk h).


(** The bytes a [_string] denotes in a heap. *)
Definition string_bytes (h : heap) (s : _string) : gostring :=
  map (fun i => bytes h (ptr s + Z.of_nat i)) (seq 0 (Z.to_nat (length_ s))).


(** The struct a [[]byte] is passed as:
    [struct { ptr *byte; len lenType; cap lenType }]. *)
Record _slice : Type := mk_slice { sptr : Z; slen : Z; scap : Z }.

(** [func stringFromBytes(x struct{...}) _string] *)
Definition stringFromBytes (h : heap) (x : _slice) : _string * heap :=
  let '(buf, h1) := alloc h (uintptr (slen x)) in
  let h2 := memcpy h1 buf (sptr x) (uintptr (slen x)) in
  (mk_string buf (lenType (slen x)), h2).

(** [func stringToBytes(x _string) (slice struct{...})] *)
Definition stringToBytes (h : heap) (x : _string) : _slice * heap :=
  let '(buf, h1) := alloc h (uintptr (length_ x)) in
  let h2 := memcpy h1 buf (ptr x) (uintptr (length_ x)) in
  (mk_slice buf (length_ x) (length_ x), h2).

(** The bytes a byte slice denotes in a heap. *)
Definition slice_bytes (h : heap) (x : _slice) : gostring :=
  map (fun i => bytes h (sptr x + Z.of_nat i)) (seq 0 (Z.to_nat (slen x))).

(** [func align(ptr uintptr) uintptr] of [runtime_wasm.go]:
    [(ptr + 3) &^ 3], in [uintptr] arithmetic. *)
Definition align (p : Z) : Z := Z.ldiff (uintptr (p + 3)) 3.

End Widths.

(** The iterator state for a range over a string:
    [type stringIterator struct { byteindex lenType; rangeindex lenType }]. *)
Record stringIterator : Type := mk_iterator { byteindex : Z; rangeindex : Z }.

Section Iteration.

(** The widths of [lenType] and of [int]. *)
Variable lenBits : Z.
Variable intBits : Z.

(** [int(x)] of a [lenType] value: its low [intBits] bits, read as a
    signed integer. *)
Definition int_ (x : Z) : Z :=
  let r := x mod 2 ^ intBits in
  if r <? 2 ^ (intBits - 1) then r else r - 2 ^ intBits.

(** [func stringNext(s string, it *stringIterator) (bool, int, rune)].
    The iterator is updated through the pointer; here the updated
    iterator is returned beside the results. *)
Definition stringNext (s : gostring) (it : stringIterator)
  : option ((bool * Z * Z) * stringIterator) :=
  if Z.of_nat (length s) <=? int_ (byteindex it) then Some ((false, 0, 0), it)
  else
    '(r, length) ← decodeUTF8 lenBits s (byteindex it);
    let it := mk_iterator (lenType lenBits (byteindex it + length))
                          (lenType lenBits (rangeindex it + 1)) in
    Some ((true, int_ (rangeindex it), r), it).

(** [for _, r := range s], as the compiler drives it: call [stringNext]
    until it answers false, collecting the keys and runes.  [fuel]
    bounds the number of calls. *)
Fixpoint rangeString (fuel : nat) (s : gostring) (it : stringIterator)
  : option (list (Z * Z)) :=
  match fuel with
  | O => None
  | S fuel' =>
      '((ok, key, r), it') ← stringNext s it;
      if ok : bool then rest ← rangeString fuel' s it'; Some ((key, r) :: rest)
      else Some []
  end.

End Iteration.

(** The UTF-8 bytes [encodeUTF8] returns for a rune, and for a
    sequence of runes laid end to end. *)
Definition utf8 (x : Z) : gostring :=
  take (Z.to_nat (snd (encodeUTF8 x))) (fst (encodeUTF8 x)).
Definition utf8String (runes : list Z) : gostring := flat_map utf8 runes.

(** The keys a range over a string reports, as this runtime counts
    them: [k], [k + 1], ... beside the runes. *)
Fixpoint counted (k : Z) (runes : list Z) : list (Z * Z) :=
  match runes with
  | [] => []
  | r :: rest => (k, r) :: counted (k + 1) rest
  end.

(** [type _interface struct { typecode uint16; value *uint8 }] *)
Record _interface : Type := mk_interface { typecode : Z; value : Z }.

(** [func interfaceEqual(x, y _interface) bool] *)
Definition interfaceEqual (x y : _interface) : outcome bool :=
  if negb (typecode x =? typecode y) then
    Returns false
  else if typecode x =? 0 then
    Returns true
  else
    Panics "unimplemented: interface equality".

End Runtime.

(* ================================================================== *)
(** ** The fragment of [go/types] and [go/token] the compiler inspects *)
(* ================================================================== *)

Module types.

Inductive BasicKind : Type :=
| Invalid
| Bool | Int | Int8 | Int16 | Int32 | Int64
| Uint | Uint8 | Uint16 | Uint32 | Uint64 | Uintptr
| Float32 | Float64 | Complex64 | Complex128
| String | UnsafePointer
| UntypedBool | UntypedInt | UntypedRune | UntypedFloat | UntypedComplex
| UntypedString | UntypedNil.

#[global] Instance BasicKind_eq_dec : EqDecision BasicKind.
Proof. solve_decision. Defined.

(** The [BasicInfo] flags of a basic kind, as [go/types] tabulates them. *)
Definition IsBoolean (k : BasicKind) : bool :=
  match k with Bool | UntypedBool => true | _ => false end.

Definition IsUnsigned (k : BasicKind) : bool :=
  match k with
  | Uint | Uint8 | Uint16 | Uint32 | Uint64 | Uintptr => true
  | _ => false
  end.

Definition IsInteger (k : BasicKind) : bool :=
  match k with
  | Int | Int8 | Int16 | Int32 | Int64
  | Uint | Uint8 | Uint16 | Uint32 | Uint64 | Uintptr
  | UntypedInt | UntypedRune => true
  | _ => false
  end.

Definition IsFloat (k : BasicKind) : bool :=
  match k with Float32 | Float64 | UntypedFloat => true | _ => false end.

Definition IsComplex (k : BasicKind) : bool :=
  match k with Complex64 | Complex128 | UntypedComplex => true | _ => false end.

Definition IsString (k : BasicKind) : bool :=
  match k with String | UntypedString => true | _ => false end.

(** Go types.  A [Named] type carries its underlying type; for a named
    struct the compiler never descends into it (it looks the type up by
    name), which is how recursive struct types stay finite here.
    [Signature] keeps its results as a list: [Results()] is the nil
    tuple exactly when the list is empty. *)
Inductive Type_ : Type :=
| Array (elem : Type_) (len : Z)
| Basic (k : BasicKind)
| Chan (elem : Type_)
| Interface
| Map (key elem : Type_)
| Named (path name : string) (underlying : Type_)
| Pointer (elem : Type_)
| Signature (recv : option Type_) (params results : list Type_)
| Slice (elem : Type_)
| Struct (fields : list Type_)
| Tuple (elems : list Type_).

(** [typ.Underlying()] *)
Definition Underlying (t : Type_) : Type_ :=
  match t with Named _ _ u => u | _ => t end.

End types.

Module token.

(** The binary operators [parseBinOp] switches on. *)
Inductive Token : Type :=
| ADD | SUB | MUL | QUO | REM | AND | OR | XOR | SHL | SHR | AND_NOT
| EQL | NEQ | LSS | LEQ | GTR | GEQ.

End token.


(* ================================================================== *)
(** ** LLVM: types, values, instructions, module *)
(* ================================================================== *)

Module llvm.

Inductive Type_ : Type :=
| NilType
| VoidType | TokenType | FloatType | DoubleType
| IntType (w : Z)
| PointerType (elem : Type_)
| ArrayType (elem : Type_) (n : nat)
| VectorType (elem : Type_) (n : nat)
| StructType (elems : list Type_)
| NamedStruct (name : string)
| FunctionType (ret : Type_) (params : list Type_).

Definition IntTypeWidth (t : Type_) : Z :=
  match t with IntType w => w | _ => 0 end.
Definition returnType (t : Type_) : Type_ :=
  match t with FunctionType r _ => r | _ => NilType end.
Definition elementType (t : Type_) : Type_ :=
  match t with PointerType e | ArrayType e _ | VectorType e _ => e | _ => NilType end.

(** LLVM values.  [ConstInt] keeps the bit pattern, [0 <= n < 2^w];
    [ConstFloat] names its float by an integer code ([0] for [0.0]):
    no property below looks inside a float.
    [Global id] is the address of the [id]-th global of the module, and
    [Inst id] the result of the [id]-th instruction the builder emitted;
    both carry their type, as every [llvm.Value] does. *)
Inductive Value : Type :=
| NilValue
| ConstInt (t : Type_) (n : Z)
| ConstFloat (t : Type_) (f : Z)
| ConstPointerNull (t : Type_)
| Undef (t : Type_)
| ConstArray (elem : Type_) (vals : list Value)
| ConstStruct (vals : list Value)
| ConstNamedStruct (t : Type_) (vals : list Value)
| ConstVector (vals : list Value)
| ConstString (s : list Z)
| ConstInBoundsGEP (v : Value) (indices : list Value)
| ConstBitCast (v : Value) (t : Type_)
| ConstIntToPtr (v : Value) (t : Type_)
| Global (id : nat) (t : Type_)
| Function (name : string) (t : Type_)
| Param (i : nat) (t : Type_)
| Inst (id : nat) (t : Type_).

Definition IsNil (v : Value) : bool :=
  match v with NilValue => true | _ => false end.

(** [v.Type()] *)
Fixpoint typeOf (v : Value) : Type_ :=
  match v with
  | NilValue => NilType
  | ConstInt t _ | ConstFloat t _ | ConstPointerNull t | Undef t => t
  | ConstArray elem vals => ArrayType elem (length vals)
  | ConstStruct vals => StructType (map typeOf vals)
  | ConstNamedStruct t _ => t
  | ConstVector vals =>
      VectorType (match vals with v :: _ => typeOf v | [] => NilType end) (length vals)
  | ConstString s => ArrayType (IntType 8) (length s)
  | ConstInBoundsGEP v _ => typeOf v
  | ConstBitCast _ t | ConstIntToPtr _ t => t
  | Function _ t => PointerType t
  | Global _ t | Param _ t | Inst _ t => t
  end.

Definition IsConstant (v : Value) : bool :=
  match v with
  | NilValue | Param _ _ | Inst _ _ => false
  | _ => true
  end.

Definition IsUndef (v : Value) : bool :=
  match v with Undef _ => true | _ => false end.

(** Two's-complement readings of a [w]-bit pattern. *)
Definition wrap (w x : Z) : Z := x mod 2 ^ w.
Definition signed (w x : Z) : Z :=
  if wrap w x <? 2 ^ (w - 1) then wrap w x else wrap w x - 2 ^ w.

(** [v.SExtValue()] of a constant integer. *)
Definition SExtValue (v : Value) : Z :=
  match v with ConstInt t n => signed (IntTypeWidth t) n | _ => 0 end.

Inductive Instr : Type :=
| ICall (fn : Value) (args : list Value)
| INot (v : Value)
| IZExt (v : Value) (t : Type_)
| ISExt (v : Value) (t : Type_)
| ITrunc (v : Value) (t : Type_)
| IBitCast (v : Value) (t : Type_)
| ILoad (p : Value)
| IStore (v p : Value)
| IAlloca (t : Type_)
| IInsertValue (agg v : Value) (i : nat)
| IExtractValue (agg : Value) (i : nat)
| IGEP (p : Value) (indices : list Value)
| ISub (a b : Value)
| IRetVoid.

(** A global variable of the module. *)
Record GlobalVar : Type := mkGlobal {
  gname : string;
  gtype : Type_;
  ginit : option Value;
  ginternal : bool
}.

(** The module: named struct bodies, function declarations, globals.
    LLVM keeps globals apart by identity and renames a repeated name;
    here a global's identity is its position in [globals]. *)
Record Module : Type := mkModule {
  namedTypes : gmap string (list Type_);
  functions : list (string * Type_);
  globals : list GlobalVar
}.

End llvm.

(* ================================================================== *)
(** ** Package [ir]: what the front end hands to the compiler *)
(* ================================================================== *)

Module ir.

(** An SSA function together with the analysis results the compiler asks
    the program for ([c.ir.IsBlocking(f)], [c.ir.FunctionNeedsContext(f)]).
    Package [ir] itself is not under src/; only these observations of it
    are used. *)
Record Function : Type := mkFunction {
  LinkName : string;
  Params : list types.Type_;
  Results : list types.Type_;          (* [f.Signature.Results()], nil iff [[]] *)
  Synthetic : string;
  hasSyntax : bool;                    (* [f.Syntax() != nil] *)
  numBlocks : nat;                     (* [len(f.Blocks)] *)
  IsNoBounds : bool;                   (* the [//go:nobounds] pragma *)
  hasRecover : bool;                   (* [f.Recover != nil] *)
  IsBlocking : bool;
  NeedsContext : bool
}.

(** [go/constant] values. *)
Inductive constant : Type :=
| CNil                                 (* [expr.Value == nil] *)
| CBool (b : bool)
| CString (s : list Z)
| CInt (n : Z)
| CFloat (f : Z)
| CComplex (re im : Z).

(** [*ssa.Const] *)
Record Const : Type := mkConst { ctype : types.Type_; cvalue : constant }.

(** [ir.Value]: the interpreted initializer trees.  Only the two shapes
    a map literal is made of are spelled out; the others are carried by
    their materialisation. *)
Inductive Value : Type :=
| ConstValue (expr : Const)
| MapValue (key elem : types.Type_) (keys values : list Value)
| OtherValue (id : nat).

End ir.

(* ================================================================== *)
(** ** The compile session: [compiler/compiler.go] *)
(* ================================================================== *)

Module Compiler.
Import llvm.

(** [llvm.ConstInt(t, n, signExtend)]: the constant of type [t] holding
    the low bits of [n]. *)
Definition constInt (t : Type_) (n : Z) : Value :=
  ConstInt t (wrap (IntTypeWidth t) n).


(** The configuration of a session: the fields [NewCompiler] fills in,
    the target data, the analysis results package [ir] answers, and the
    helpers of this repository that are not under src/. *)
Record Compiler : Type := mkCompiler {
  Debug : bool;
  PointerSize : Z;                         (* [c.targetData.PointerSize()] *)
  TypeAllocSize : Type_ -> Z;              (* [c.targetData.TypeAllocSize] *)
  MainPkgPath : string;                    (* [c.ir.MainPkg().Pkg.Path()] *)
  NeedsScheduler : bool;                   (* [c.ir.NeedsScheduler()] *)
  SignatureNeedsContext : types.Type_ -> bool;
  (** Modelled from the spec: [expandFormalParamType] is defined outside
      src/; section 4.3 says each lowered parameter type is expanded into
      the fragments the callee receives. *)
  expandFormalParamType : Type_ -> list Type_;
  (** Modelled from the spec: [hashmapHash] and [hashmapTopHash] are
      defined outside src/; section 4.2 says the top byte of the key's
      hash is what the tophash slot stores. *)
  hashmapHash : list Z -> Z;
  hashmapTopHash : Z -> Z;
  (** The materialisation of the initializer shapes [ir.OtherValue]
      stands for. *)
  interpretOther : nat -> Module -> result Value * Module;
  (** How deep a walk over an LLVM type may nest before the model gives
      up; the source recurses without a bound. *)
  typeDepth : nat
}.

(** The fields [NewCompiler] derives: [int] is fixed at 32 bits, and
    [lenType] is 32 bits unless pointers are narrower. *)
Definition intType (c : Compiler) : Type_ := IntType 32.
Definition uintptrType (c : Compiler) : Type_ := IntType (PointerSize c * 8).
Definition lenType (c : Compiler) : Type_ :=
  if PointerSize c <? 4 then uintptrType c else IntType 32.
Definition i8ptrType : Type_ := PointerType (IntType 8).

(** What a session mutates: the module, the block the builder is
    appending to (each instruction with the number that names its
    result), and the lists of deferred-call thunks still to emit. *)
Record State : Type := mkState {
  mod_ : Module;
  code : list (nat * Instr);
  nextId : nat;
  deferFuncs : list string;
  deferInvokeFuncs : list (string * list Type_);
  ctxDeferFuncs : list (Value * list Type_)
}.

Definition M (A : Type) : Type := State -> result A * State.

#[global] Instance M_ret : MRet M := fun A a s => (Ok a, s).
#[global] Instance M_bind : MBind M := fun A B f m s =>
  match m s with
  | (Ok a, s') => f a s'
  | (Err e, s') => (Err e, s')
  | (Crash msg, s') => (Crash msg, s')
  end.

Definition fail {A : Type} (e : error) : M A := fun s => (Err e, s).
Definition crash {A : Type} (msg : string) : M A := fun s => (Crash msg, s).
Definition lift {A : Type} (r : result A) : M A := fun s => (r, s).
Definition getModule : M Module := fun s => (Ok (mod_ s), s).
Definition setModule (m : Module) : M unit := fun s =>
  (Ok tt, mkState m (code s) (nextId s) (deferFuncs s) (deferInvokeFuncs s) (ctxDeferFuncs s)).

(** [err != nil] observed without leaving the function. *)
Definition try {A : Type} (m : M A) : M (option A) := fun s =>
  match m s with
  | (Ok a, s') => (Ok (Some a), s')
  | (Err _, s') => (Ok None, s')
  | (Crash msg, s') => (Crash msg, s')
  end.

(** *** The IR builder.  Every [Create*] call appends its instruction;
    the builder's constant folder is modelled for the integer casts only,
    where [emitBoundsCheck] can observe it through [IsConstant]. *)
Definition emit (i : Instr) (t : Type_) : M Value := fun s =>
  (Ok (Inst (nextId s) t),
   mkState (mod_ s) (code s ++ [(nextId s, i)]) (S (nextId s))
           (deferFuncs s) (deferInvokeFuncs s) (ctxDeferFuncs s)).

Definition CreateCall (fn : Value) (args : list Value) : M Value :=
  emit (ICall fn args) (returnType (elementType (typeOf fn))).
Definition CreateNot (v : Value) : M Value := emit (INot v) (typeOf v).
Definition CreateZExt (v : Value) (t : Type_) : M Value :=
  match v with
  | ConstInt _ n => mret (ConstInt t n)
  | _ => emit (IZExt v t) t
  end.
Definition CreateSExt (v : Value) (t : Type_) : M Value :=
  match v with
  | ConstInt t0 n => mret (constInt t (signed (IntTypeWidth t0) n))
  | _ => emit (ISExt v t) t
  end.
Definition CreateTrunc (v : Value) (t : Type_) : M Value :=
  match v with
  | ConstInt _ n => mret (constInt t n)
  | _ => emit (ITrunc v t) t
  end.
Definition CreateBitCast (v : Value) (t : Type_) : M Value := emit (IBitCast v t) t.
Definition CreateLoad (p : Value) : M Value := emit (ILoad p) (elementType (typeOf p)).
Definition CreateStore (v p : Value) : M Value := emit (IStore v p) VoidType.
Definition CreateAlloca (t : Type_) : M Value := emit (IAlloca t) (PointerType t).
Definition CreateInsertValue (agg v : Value) (i : nat) : M Value :=
  emit (IInsertValue agg v i) (typeOf agg).
Definition CreateExtractValue (agg : Value) (i : nat) : M Value :=
  emit (IExtractValue agg i)
       (match typeOf agg with
        | StructType ts => default NilType (ts !! i)
        | t => elementType t
        end).
Definition CreateGEP (p : Value) (indices : list Value) : M Value :=
  emit (IGEP p indices)
       (match indices with
        | [_; _] => PointerType (elementType (elementType (typeOf p)))
        | _ => typeOf p
        end).
Definition CreateSub (a b : Value) : M Value := emit (ISub a b) (typeOf a).
Definition CreateRetVoid : M Value := emit IRetVoid VoidType.

(** [ctx.AddBasicBlock] followed by [builder.SetInsertPointAtEnd]: the
    builder starts appending to a fresh, empty block. *)
Definition enterNewBlock : M unit := fun s =>
  (Ok tt, mkState (mod_ s) [] (nextId s)
                  (deferFuncs s) (deferInvokeFuncs s) (ctxDeferFuncs s)).

(** *** The module. *)
Definition GetTypeByName (m : Module) (name : string) : Type_ :=
  match namedTypes m !! name with
  | Some _ => NamedStruct name
  | None => NilType
  end.

Definition NamedFunction (m : Module) (name : string) : Value :=
  match list_find (fun d => bool_decide (d.1 = name)) (functions m) with
  | Some (_, (n, t)) => Function n t
  | None => NilValue
  end.

Definition AddFunction (name : string) (t : Type_) : M Value :=
  m ← getModule;
  setModule (mkModule (namedTypes m) (functions m ++ [(name, t)]) (globals m));;
  mret (Function name t).

Definition AddGlobal (t : Type_) (name : string) : M Value :=
  m ← getModule;
  setModule (mkModule (namedTypes m) (functions m)
                      (globals m ++ [mkGlobal name t None false]));;
  mret (Global (length (globals m)) (PointerType t)).

Definition globalId (g : Value) : option nat :=
  match g with Global id _ => Some id | _ => None end.


Definition updateGlobal (f : GlobalVar -> GlobalVar) (g : Value) : M unit :=
  m ← getModule;
  match globalId g with
  | Some id =>
      setModule (mkModule (namedTypes m) (functions m)
                          (alter f id (globals m)))
  | None => mret tt
  end.

Definition SetInitializer (g v : Value) : M unit :=
  updateGlobal (fun gv => mkGlobal (gname gv) (gtype gv) (Some v) (ginternal gv)) g.
Definition SetLinkageInternal (g : Value) : M unit :=
  updateGlobal (fun gv => mkGlobal (gname gv) (gtype gv) (ginit gv) true) g.

(** *** The type lowerer *)

(** [func (c *Compiler) getLLVMType(goType types.Type) (llvm.Type, error)] *)
Fixpoint getLLVMType (c : Compiler) (m : Module) (goType : types.Type_)
  {struct goType} : result Type_ :=
  let all := fix all (ts : list types.Type_) : result (list Type_) :=
    match ts with
    | [] => Ok []
    | t :: ts' =>
        match getLLVMType c m t with
        | Ok x => match all ts' with Ok xs => Ok (x :: xs) | Err e => Err e | Crash e => Crash e end
        | Err e => Err e
        | Crash e => Crash e
        end
    end in
  match goType with
  | types.Array elem len =>
      elemType ← getLLVMType c m elem;
      Ok (ArrayType elemType (Z.to_nat len))
  | types.Basic k =>
      match k with
      | types.Bool | types.UntypedBool => Ok (IntType 1)
      | types.Int8 | types.Uint8 => Ok (IntType 8)
      | types.Int16 | types.Uint16 => Ok (IntType 16)
      | types.Int32 | types.Uint32 => Ok (IntType 32)
      | types.Int | types.Uint => Ok (intType c)
      | types.Int64 | types.Uint64 => Ok (IntType 64)
      | types.Float32 => Ok FloatType
      | types.Float64 => Ok DoubleType
      | types.Complex64 => Ok (VectorType FloatType 2)
      | types.Complex128 => Ok (VectorType DoubleType 2)
      | types.String | types.UntypedString => Ok (GetTypeByName m "runtime._string")
      | types.Uintptr => Ok (uintptrType c)
      | types.UnsafePointer => Ok i8ptrType
      | _ => Err (UnsupportedType "todo: unknown basic type")
      end
  | types.Chan _ => Ok (PointerType (GetTypeByName m "runtime.channel"))
  | types.Interface => Ok (GetTypeByName m "runtime._interface")
  | types.Map _ _ => Ok (PointerType (GetTypeByName m "runtime.hashmap"))
  | types.Named path name underlying =>
      match underlying with
      | types.Struct _ =>
          match GetTypeByName m (path +:+ "." +:+ name) with
          | NilType => Err (UnsupportedType "type not found")
          | llvmType => Ok llvmType
          end
      | _ => getLLVMType c m underlying
      end
  | types.Pointer elem =>
      ptrTo ← getLLVMType c m elem;
      Ok (PointerType ptrTo)
  | types.Signature recv params results =>
      returnType ←
        match results with
        | [] => Ok VoidType
        | [r] => getLLVMType c m r
        | _ => members ← all results; Ok (StructType members)
        end;
      recvTypes ←
        match recv with
        | Some r =>
            recv ← getLLVMType c m r;
            let recv := match recv with
                        | NamedStruct "runtime._interface" => i8ptrType
                        | _ => recv
                        end in
            Ok (expandFormalParamType c recv)
        | None => Ok []
        end;
      subTypes ← all params;
      let paramTypes := recvTypes ++ concat (map (expandFormalParamType c) subTypes) in
      if SignatureNeedsContext c goType then
        Ok (StructType
              [i8ptrType;
               PointerType (FunctionType returnType (paramTypes ++ [i8ptrType]))])
      else
        Ok (PointerType (FunctionType returnType paramTypes))
  | types.Slice elem =>
      elemType ← getLLVMType c m elem;
      Ok (StructType [PointerType elemType; lenType c; lenType c])
  | types.Struct fields =>
      members ← all fields;
      Ok (StructType members)
  | types.Tuple _ => Err (UnsupportedType "todo: unknown type")
  end.

(** [func (c *Compiler) getZeroValue(typ llvm.Type) (llvm.Value, error)].
    The body of a named struct is looked up in the module, so the
    recursion is bounded by [fuel] rather than by the type. *)
Fixpoint getZeroValue (m : Module) (fuel : nat) (typ : Type_) : result Value :=
  match fuel with
  | O => Err (UnsupportedType "LLVM zero initializer: type nests too deep")
  | S fuel' =>
      match typ with
      | ArrayType subTyp n =>
          subVal ← getZeroValue m fuel' subTyp;
          Ok (ConstArray subTyp (replicate n subVal))
      | FloatType | DoubleType => Ok (ConstFloat typ 0)
      | IntType _ => Ok (constInt typ 0)
      | PointerType _ => Ok (ConstPointerNull typ)
      | StructType elems =>
          vals ← forM (getZeroValue m fuel') elems;
          Ok (ConstStruct vals)
      | NamedStruct name =>
          vals ← forM (getZeroValue m fuel') (default [] (namedTypes m !! name));
          Ok (ConstNamedStruct typ vals)
      | VectorType elem n =>
          zero ← getZeroValue m fuel' elem;
          Ok (ConstVector (replicate n zero))
      | _ => Err (UnsupportedType "todo: LLVM zero initializer")
      end
  end.

(** *** The constant materialiser *)

(** The accessors of [go/constant]; each panics on a value of another
    kind.  [Uint64Val] of an integer that fits 64 bits is its
    two's-complement pattern. *)
Definition BoolVal (v : ir.constant) : result bool :=
  match v with ir.CBool b => Ok b | _ => Crash "not a Bool" end.
Definition StringVal (v : ir.constant) : result (list Z) :=
  match v with ir.CString s => Ok s | _ => Crash "not a String" end.
Definition Uint64Val (v : ir.constant) : result Z :=
  match v with ir.CInt n => Ok (wrap 64 n) | _ => Crash "not an Int" end.
Definition Int64Val (v : ir.constant) : result Z :=
  match v with ir.CInt n => Ok (signed 64 n) | _ => Crash "not an Int" end.
Definition Float64Val (v : ir.constant) : result Z :=
  match v with ir.CFloat f => Ok f | _ => Crash "not a Float" end.
Definition IsNilConst (v : ir.constant) : bool :=
  match v with ir.CNil => true | _ => false end.

(** [func (c *Compiler) parseConst(prefix string, expr *ssa.Const) (llvm.Value, error)].
    The address of the string global is a constant expression, so the
    builder emits nothing for it; the two recursive calls of the
    [Complex128] case are on [Float64] constants and are written out. *)
Definition parseConst (c : Compiler) (prefix : string) (expr : ir.Const) : M Value :=
  m ← getModule;
  match types.Underlying (ir.ctype expr) with
  | types.Basic k =>
      llvmType ← lift (getLLVMType c m (types.Basic k));
      if types.IsBoolean k then
        b ← lift (BoolVal (ir.cvalue expr));
        mret (constInt llvmType (if b : bool then 1 else 0))
      else if types.IsString k then
        str ← lift (StringVal (ir.cvalue expr));
        let strLen := constInt (lenType c) (Z.of_nat (length str)) in
        global ← AddGlobal (ArrayType (IntType 8) (length str)) (prefix +:+ "$string");
        SetInitializer global (ConstString str);;
        SetLinkageInternal global;;
        let zero := constInt (IntType 32) 0 in
        let strPtr := ConstInBoundsGEP global [zero; zero] in
        mret (ConstNamedStruct (GetTypeByName m "runtime._string") [strPtr; strLen])
      else if bool_decide (k = types.UnsafePointer) then
        if negb (IsNilConst (ir.cvalue expr)) then
          value ← lift (Uint64Val (ir.cvalue expr));
          mret (ConstIntToPtr (constInt (uintptrType c) value) i8ptrType)
        else mret (ConstPointerNull i8ptrType)
      else if types.IsUnsigned k then
        n ← lift (Uint64Val (ir.cvalue expr));
        mret (constInt llvmType n)
      else if types.IsInteger k then
        n ← lift (Int64Val (ir.cvalue expr));
        mret (constInt llvmType n)
      else if types.IsFloat k then
        n ← lift (Float64Val (ir.cvalue expr));
        mret (ConstFloat llvmType n)
      else if bool_decide (k = types.Complex128) then
        match ir.cvalue expr with
        | ir.CComplex re im =>
            mret (ConstVector [ConstFloat DoubleType re; ConstFloat DoubleType im])
        | _ => crash "not a Complex"
        end
      else fail (UnsupportedConstant "todo: unknown constant")
  | types.Signature _ _ _ =>
      if negb (IsNilConst (ir.cvalue expr)) then
        fail (UnsupportedConstant "non-nil signature constant")
      else
        sig ← lift (getLLVMType c m (ir.ctype expr));
        lift (getZeroValue m (typeDepth c) sig)
  | types.Interface =>
      if negb (IsNilConst (ir.cvalue expr)) then
        fail (UnsupportedConstant "non-nil interface constant")
      else
        mret (ConstNamedStruct (GetTypeByName m "runtime._interface")
                [constInt (IntType 16) 0; ConstPointerNull i8ptrType])
  | types.Pointer elem =>
      if negb (IsNilConst (ir.cvalue expr)) then
        fail (UnsupportedConstant "non-nil pointer constant")
      else
        llvmType ← lift (getLLVMType c m (types.Pointer elem));
        mret (ConstPointerNull llvmType)
  | types.Slice elem =>
      if negb (IsNilConst (ir.cvalue expr)) then
        fail (UnsupportedConstant "non-nil slice constant")
      else
        elemType ← lift (getLLVMType c m elem);
        let llvmLen := constInt (lenType c) 0 in
        mret (ConstStruct [ConstPointerNull (PointerType elemType); llvmLen; llvmLen])
  | types.Map key elem =>
      if negb (IsNilConst (ir.cvalue expr)) then
        crash "non-nil map constant"
      else
        llvmType ← lift (getLLVMType c m (types.Map key elem));
        lift (getZeroValue m (typeDepth c) llvmType)
  | _ => fail (UnsupportedConstant "todo: unknown constant")
  end.

(** *** The function prologue builder *)

Record Frame : Type := mkFrame {
  fn : ir.Function;
  LLVMFn : Value;                      (* [frame.fn.LLVMFn] *)
  blocking : bool;
  deferPtr : Value;
  hasDifunc : bool
}.

(** [getDIType] and [attachDebugInfoRaw], as far as they can fail: the
    debug type of each parameter needs its LLVM type.  (The cache of
    debug types only holds types that lowered before.) *)
Definition attachDebugInfoRaw (c : Compiler) (f : ir.Function) : M unit :=
  m ← getModule;
  lift (forM (getLLVMType c m) (ir.Params f));;
  mret tt.

(** One round of the loop over [f.Params]: lower the parameter's type and
    expand it into the fragments the function receives. *)
Definition lowerParam (c : Compiler) (m : Module) (param : types.Type_) : result (list Type_) :=
  paramType ← getLLVMType c m param;
  Ok (expandFormalParamType c paramType).

(** [func (c *Compiler) parseFuncDecl(f *ir.Function)], returning the frame or an error *)
Definition parseFuncDecl (c : Compiler) (f : ir.Function) : M Frame :=
  m ← getModule;
  let blocking := ir.IsBlocking f in
  retType ← lift (
    if blocking then
      match ir.Results f with
      | [] => Ok i8ptrType
      | _ => Err UnsupportedBlockingReturn
      end
    else
      match ir.Results f with
      | [] => Ok VoidType
      | [r] => getLLVMType c m r
      | rs => results ← forM (getLLVMType c m) rs; Ok (StructType results)
      end);
  fragments ← lift (forM (lowerParam c m) (ir.Params f));
  let paramTypes := (if blocking then [i8ptrType] else []) ++ concat fragments in
  let paramTypes := if ir.NeedsContext f then paramTypes ++ [i8ptrType] else paramTypes in
  let fnType := FunctionType retType paramTypes in
  let name := ir.LinkName f in
  llvmFn ← (match NamedFunction m name with
            | NilValue => AddFunction name fnType
            | existing => mret existing
            end);
  difunc ← (if Debug c && bool_decide (ir.Synthetic f = "package initializer") then
              attachDebugInfoRaw c f;; mret true
            else if Debug c && ir.hasSyntax f && negb (Nat.eqb (ir.numBlocks f) 0) then
              attachDebugInfoRaw c f;; mret true
            else mret false);
  mret (mkFrame f llvmFn blocking NilValue difunc).

(** The tail of [Compile] that emits [runtime.mainWrapper]: the wrapper
    either calls [main.main] directly or sets up the scheduler with it. *)
Definition emitMainWrapper (c : Compiler) (mainWrapper : ir.Function) : M unit :=
  (if Debug c then attachDebugInfoRaw c mainWrapper else mret tt);;
  enterNewBlock;;
  m ← getModule;
  let realMain := NamedFunction m (MainPkgPath c +:+ ".main") in
  (if NeedsScheduler c then
     coroutine ← CreateCall realMain [ConstPointerNull i8ptrType];
     let scheduler := NamedFunction m "runtime.scheduler" in
     CreateCall scheduler [coroutine]
   else
     CreateCall realMain []);;
  CreateRetVoid;;
  mret tt.

(** *** The instruction lowerer *)

(** Modelled from the spec: [createRuntimeCall] is defined outside src/;
    the lowerer "calls into" the runtime "by name", so the helper is a
    call of the module's function [runtime.<name>]. *)
Definition createRuntimeCall (name : string) (args : list Value) : M Value :=
  m ← getModule;
  CreateCall (NamedFunction m ("runtime." +:+ name)) args.

(** [parseBinOp], the branch for operands of a string type
    ([typ.Info()&types.IsString != 0]). *)
Definition parseBinOp_string (op : token.Token) (x y : Value) : M Value :=
  match op with
  | token.ADD => createRuntimeCall "stringConcat" [x; y]
  | token.EQL => createRuntimeCall "stringEqual" [x; y]
  | token.NEQ =>
      result ← createRuntimeCall "stringEqual" [x; y];
      CreateNot result
  | token.LSS => createRuntimeCall "stringLess" [x; y]
  | token.LEQ =>
      result ← createRuntimeCall "stringLess" [y; x];
      CreateNot result
  | token.GTR =>
      result ← createRuntimeCall "stringLess" [x; y];
      CreateNot result
  | token.GEQ => createRuntimeCall "stringLess" [y; x]
  | _ => fail (UnsupportedInstruction "todo: binop on string")
  end.

(** [func (c *Compiler) emitBoundsCheck(frame *Frame, arrayLen, index llvm.Value, indexType types.Type)] *)
Definition emitBoundsCheck (c : Compiler) (frame : Frame)
  (arrayLen index : Value) (indexType : types.Type_) : M unit :=
  if ir.IsNoBounds (fn frame) then mret tt
  else
    index ←
      (if IntTypeWidth (typeOf index) <? IntTypeWidth (typeOf arrayLen) then
         match indexType with
         | types.Basic k =>
             if negb (types.IsUnsigned k)
             then CreateZExt index (typeOf arrayLen)
             else CreateSExt index (typeOf arrayLen)
         | _ => crash "interface conversion: types.Type is not *types.Basic"
         end
       else mret index);
    if IsConstant index && IsConstant arrayLen && negb (IsUndef arrayLen)
       && (0 <=? SExtValue index) && (SExtValue index <? SExtValue arrayLen)
    then mret tt
    else if IntTypeWidth (typeOf index) >? IntTypeWidth (intType c) then
      createRuntimeCall "lookupBoundsCheckLong" [arrayLen; index];; mret tt
    else
      createRuntimeCall "lookupBoundsCheck" [arrayLen; index];; mret tt.

(** [func (c *Compiler) emitSliceBoundsCheck(frame *Frame, capacity, low, high llvm.Value)] *)
Definition emitSliceBoundsCheck (c : Compiler) (frame : Frame)
  (capacity low high : Value) : M unit :=
  if ir.IsNoBounds (fn frame) then mret tt
  else if (IntTypeWidth (typeOf low) >? 32) || (IntTypeWidth (typeOf high) >? 32) then
    low ← (if IntTypeWidth (typeOf low) <? 64
           then CreateSExt low (IntType 64) else mret low);
    high ← (if IntTypeWidth (typeOf high) <? 64
            then CreateSExt high (IntType 64) else mret high);
    createRuntimeCall "sliceBoundsCheckLong" [capacity; low; high];; mret tt
  else
    createRuntimeCall "sliceBoundsCheck" [capacity; low; high];; mret tt.

(** [parseExpr], the case [*ssa.Slice].  [hasMax] is [expr.Max != nil],
    [xType] is [expr.X.Type()], and [pX], [pLow], [pHigh] are the
    recursive calls on the operands ([None] for an absent bound).  A
    failure in lowering a bound makes the source return the nil value
    with a nil error. *)
Definition parseExpr_Slice (c : Compiler) (frame : Frame) (hasMax : bool)
  (xType : types.Type_) (pX : M Value) (pLow pHigh : option (M Value)) : M Value :=
  if hasMax then fail (UnsupportedInstruction "todo: full slice expressions (with max)")
  else
    value ← pX;
    lowR ← match pLow with
           | None => mret (Some (constInt (intType c) 0))
           | Some p => try p
           end;
    match lowR with
    | None => mret NilValue
    | Some low =>
    highR ← match pHigh with
            | None => mret (Some NilValue)
            | Some p => try p
            end;
    match highR with
    | None => mret NilValue
    | Some high =>
    match types.Underlying xType with
    | types.Pointer elem =>
        match elem with
        | types.Array _ length =>
            let llvmLen := constInt (lenType c) length in
            let llvmLenInt := constInt (intType c) length in
            let high := if IsNil high then llvmLenInt else high in
            slicePtr ← CreateGEP value [constInt (IntType 32) 0; low];
            sliceLen ← CreateSub high low;
            sliceCap ← CreateSub llvmLenInt low;
            emitSliceBoundsCheck c frame llvmLen low high;;
            let wide := TypeAllocSize c (typeOf sliceLen) >? TypeAllocSize c (lenType c) in
            sliceLen ← (if wide then CreateTrunc sliceLen (lenType c) else mret sliceLen);
            sliceCap ← (if wide then CreateTrunc sliceCap (lenType c) else mret sliceCap);
            let slice := ConstStruct [Undef (typeOf slicePtr); Undef (lenType c); Undef (lenType c)] in
            slice ← CreateInsertValue slice slicePtr 0;
            slice ← CreateInsertValue slice sliceLen 1;
            CreateInsertValue slice sliceCap 2
        | _ => crash "interface conversion: types.Type is not *types.Array"
        end
    | types.Slice _ =>
        oldPtr ← CreateExtractValue value 0;
        oldLen ← CreateExtractValue value 1;
        oldCap ← CreateExtractValue value 2;
        let high := if IsNil high then oldLen else high in
        emitSliceBoundsCheck c frame oldCap low high;;
        low ← (if TypeAllocSize c (typeOf low) >? TypeAllocSize c (lenType c)
               then CreateTrunc low (lenType c) else mret low);
        high ← (if TypeAllocSize c (typeOf high) >? TypeAllocSize c (lenType c)
                then CreateTrunc high (lenType c) else mret high);
        newPtr ← CreateGEP oldPtr [low];
        newLen ← CreateSub high low;
        newCap ← CreateSub oldCap low;
        let slice := ConstStruct [Undef (typeOf newPtr); Undef (lenType c); Undef (lenType c)] in
        slice ← CreateInsertValue slice newPtr 0;
        slice ← CreateInsertValue slice newLen 1;
        CreateInsertValue slice newCap 2
    | types.Basic k =>
        if negb (types.IsString k) then fail (UnsupportedInstruction "unknown slice type")
        else
          oldPtr ← CreateExtractValue value 0;
          oldLen ← CreateExtractValue value 1;
          let high := if IsNil high then oldLen else high in
          emitSliceBoundsCheck c frame oldLen low high;;
          newPtr ← CreateGEP oldPtr [low];
          newLen ← CreateSub high low;
          m ← getModule;
          str ← lift (getZeroValue m (typeDepth c) (GetTypeByName m "runtime._string"));
          str ← CreateInsertValue str newPtr 0;
          CreateInsertValue str newLen 1
    | _ => fail (UnsupportedInstruction "unknown slice type")
    end
    end
    end.

(** *** The defer engine, call side *)









(** *** The constant materialiser: map literals *)





Section MapLiteral.

Variable c : Compiler.
Variable prefix : string.
Variables key elem : types.Type_.



End MapLiteral.


End Compiler.

(* ================================================================== *)
(** ** A machine for the emitted instructions *)
(* ================================================================== *)

Module Machine.
Import llvm.

(** Run-time values.  An integer is its bit pattern; a pointer is an
    address, null being [0]; [RString] is a Go string handed to a runtime
    helper that is written over [string]. *)
Inductive rval : Type :=
| RInt (n : Z)
| RPtr (a : Z)
| RStruct (fields : list rval)
| RString (s : Runtime.gostring)
| RFunc (name : string)
| RUndef.

#[global] Instance rval_inhabited : Inhabited rval := populate RUndef.

(** Registers (one per instruction), the function's arguments, the
    stack cells that [alloca] created, and the next free cell. *)
Record state : Type := mkState {
  regs : gmap nat rval;
  args : list rval;
  mem : gmap Z rval;
  sp : Z
}.

Inductive run (A : Type) : Type :=
| Done (a : A)
| Panic (msg : string)
| Stuck.
Arguments Done {A} a.
Arguments Panic {A} msg.
Arguments Stuck {A}.

Fixpoint eval (st : state) (v : Value) : rval :=
  match v with
  | ConstInt _ n => RInt n
  | ConstPointerNull _ => RPtr 0
  | ConstStruct vals | ConstNamedStruct _ vals | ConstArray _ vals =>
      RStruct (map (eval st) vals)
  | Function name _ => RFunc name
  | Param i _ => args st !!! i
  | Inst id _ => regs st !!! id
  | _ => RUndef
  end.

(** Modelled from the spec: [runtime.sliceBoundsCheck] and its [Long]
    variant are not under src/.  The spec calls them the bounds check
    that precedes a slice expression; for [s[low:high]] that check is
    [low <= high <= capacity] on unsigned operands. *)
Definition sliceBoundsCheck (capacity low high : Z) : outcome unit :=
  if (low <=? high) && (high <=? capacity) then Returns tt
  else Panics "slice out of range".

(** What a call of a runtime helper does. *)
Definition callRuntime (name : string) (actuals : list rval) : run rval :=
  if bool_decide (name = "runtime.stringEqual") then
    match actuals with
    | [RString x; RString y] =>
        match Runtime.stringEqual x y with
        | Some b => Done (RInt (Z.b2z b))
        | None => Stuck
        end
    | _ => Stuck
    end
  else if bool_decide (name = "runtime.stringLess") then
    match actuals with
    | [RString x; RString y] =>
        match Runtime.stringLess x y with
        | Some b => Done (RInt (Z.b2z b))
        | None => Stuck
        end
    | _ => Stuck
    end
  else if bool_decide (name = "runtime.sliceBoundsCheck")
          || bool_decide (name = "runtime.sliceBoundsCheckLong") then
    match actuals with
    | [RInt capacity; RInt low; RInt high] =>
        match sliceBoundsCheck capacity low high with
        | Returns _ => Done RUndef
        | Panics msg => Panic msg
        end
    | _ => Stuck
    end
  else Stuck.

Definition setReg (st : state) (id : nat) (r : rval) : state :=
  mkState (<[id := r]> (regs st)) (args st) (mem st) (sp st).

Section Step.

(** [TypeAllocSize] of the target. *)
Variable sizeOf : Type_ -> Z.

Definition step (st : state) (ins : nat * Instr) : run state :=
  let '(id, i) := ins in
  let w v := IntTypeWidth (typeOf v) in
  match i with
  | ICall fn actuals =>
      match eval st fn with
      | RFunc name =>
          match callRuntime name (map (eval st) actuals) with
          | Done r => Done (setReg st id r)
          | Panic msg => Panic msg
          | Stuck => Stuck
          end
      | _ => Stuck
      end
  | INot v =>
      match eval st v with
      | RInt n => Done (setReg st id (RInt (wrap (w v) (Z.lnot n))))
      | _ => Stuck
      end
  | IZExt v _ =>
      match eval st v with
      | RInt n => Done (setReg st id (RInt n))
      | _ => Stuck
      end
  | ISExt v t =>
      match eval st v with
      | RInt n => Done (setReg st id (RInt (wrap (IntTypeWidth t) (signed (w v) n))))
      | _ => Stuck
      end
  | ITrunc v t =>
      match eval st v with
      | RInt n => Done (setReg st id (RInt (wrap (IntTypeWidth t) n)))
      | _ => Stuck
      end
  | IBitCast v _ => Done (setReg st id (eval st v))
  | ILoad p =>
      match eval st p with
      | RPtr a =>
          match mem st !! a with
          | Some r => Done (setReg st id r)
          | None => Stuck
          end
      | _ => Stuck
      end
  | IStore v p =>
      match eval st p with
      | RPtr a =>
          match mem st !! a with
          | Some _ => Done (mkState (regs st) (args st) (<[a := eval st v]> (mem st)) (sp st))
          | None => Stuck
          end
      | _ => Stuck
      end
  | IAlloca _ =>
      Done (mkState (<[id := RPtr (sp st)]> (regs st)) (args st)
                    (<[sp st := RUndef]> (mem st)) (sp st + 1))
  | IInsertValue agg v i =>
      match eval st agg with
      | RStruct fields =>
          match fields !! i with
          | Some _ => Done (setReg st id (RStruct (<[i := eval st v]> fields)))
          | None => Stuck
          end
      | _ => Stuck
      end
  | IExtractValue agg i =>
      match eval st agg with
      | RStruct fields =>
          match fields !! i with
          | Some r => Done (setReg st id r)
          | None => Stuck
          end
      | _ => Stuck
      end
  | IGEP p indices =>
      match eval st p, indices with
      | RPtr a, [i] =>
          match eval st i with
          | RInt n =>
              Done (setReg st id (RPtr (a + signed (w i) n * sizeOf (elementType (typeOf p)))))
          | _ => Stuck
          end
      | _, _ => Stuck
      end
  | ISub a b =>
      match eval st a, eval st b with
      | RInt x, RInt y => Done (setReg st id (RInt (wrap (w a) (x - y))))
      | _, _ => Stuck
      end
  | IRetVoid => Done st
  end.

Fixpoint exec (st : state) (code : list (nat * Instr)) : run state :=
  match code with
  | [] => Done st
  | ins :: rest =>
      match step st ins with
      | Done st' => exec st' rest
      | Panic msg => Panic msg
      | Stuck => Stuck
      end
  end.

End Step.

End Machine.

(* ================================================================== *)
(** ** What the properties observe, and the programs of the examples *)
(* ================================================================== *)

Module Spec.
Import llvm Compiler.

Definition emptyState (m : Module) : Compiler.State := Compiler.mkState m [] 0 [] [] [].

Definition stringType : Type_ := NamedStruct "runtime._string".

(** A module that declares the runtime helpers the lowered code calls. *)
Definition runtimeModule : Module :=
  mkModule
    (list_to_map
       [("runtime._string", [i8ptrType; IntType 32]);
        ("runtime._interface", [IntType 16; i8ptrType]);
        ("runtime._defer", [i8ptrType; i8ptrType]);
        ("runtime.hashmap",
         [i8ptrType; i8ptrType; IntType 32; IntType 8; IntType 8; IntType 8])])
    [("runtime.stringEqual", FunctionType (IntType 1) [stringType; stringType]);
     ("runtime.stringLess", FunctionType (IntType 1) [stringType; stringType]);
     ("runtime.sliceBoundsCheck", FunctionType VoidType [IntType 32; IntType 32; IntType 32]);
     ("runtime.lookupBoundsCheck", FunctionType VoidType [IntType 32; IntType 32])]
    [].

Definition machineStart (actuals : list Machine.rval) : Machine.state :=
  Machine.mkState ∅ actuals ∅ 1.

(** Lower [x op y] for two string parameters and run the emitted code
    on the Go strings [x] and [y]. *)
Definition runStringBinOp (op : token.Token) (x y : list Z) : option bool :=
  match parseBinOp_string op (Param 0 stringType) (Param 1 stringType)
                          (emptyState runtimeModule) with
  | (Ok v, s) =>
      match Machine.exec (fun _ => 1)
                         (machineStart [Machine.RString x; Machine.RString y])
                         (Compiler.code s) with
      | Machine.Done st =>
          match Machine.eval st v with
          | Machine.RInt n => Some (negb (n =? 0))
          | _ => None
          end
      | _ => None
      end
  | _ => None
  end.

(** Induction over Go types, with the hypothesis for every component. *)
Section TypeInduction.
Variable P : types.Type_ -> Prop.
Hypothesis HArray : forall e n, P e -> P (types.Array e n).
Hypothesis HBasic : forall k, P (types.Basic k).
Hypothesis HChan : forall e, P e -> P (types.Chan e).
Hypothesis HInterface : P types.Interface.
Hypothesis HMap : forall k e, P k -> P e -> P (types.Map k e).
Hypothesis HNamed : forall p n u, P u -> P (types.Named p n u).
Hypothesis HPointer : forall e, P e -> P (types.Pointer e).
Hypothesis HSignature : forall r ps rs,
  (forall t, r = Some t -> P t) -> Forall P ps -> Forall P rs ->
  P (types.Signature r ps rs).
Hypothesis HSlice : forall e, P e -> P (types.Slice e).
Hypothesis HStruct : forall fs, Forall P fs -> P (types.Struct fs).
Hypothesis HTuple : forall es, Forall P es -> P (types.Tuple es).

Fixpoint Type_induction (t : types.Type_) : P t :=
  let all := fix all (ts : list types.Type_) : Forall P ts :=
    match ts with
    | [] => Forall_nil_2 P
    | t :: ts' => Forall_cons_2 P t ts' (Type_induction t) (all ts')
    end in
  match t with
  | types.Array e n => HArray e n (Type_induction e)
  | types.Basic k => HBasic k
  | types.Chan e => HChan e (Type_induction e)
  | types.Interface => HInterface
  | types.Map k e => HMap k e (Type_induction k) (Type_induction e)
  | types.Named p n u => HNamed p n u (Type_induction u)
  | types.Pointer e => HPointer e (Type_induction e)
  | types.Signature r ps rs =>
      HSignature r ps rs
        (match r as r0 return forall t, r0 = Some t -> P t with
         | Some t0 => fun t E => eq_ind t0 P (Type_induction t0) t (Some_inj _ _ E)
         | None => fun t E => False_ind _ (eq_ind None (fun o => match o with None => True | Some _ => False end) I _ E)
         end)
        (all ps) (all rs)
  | types.Slice e => HSlice e (Type_induction e)
  | types.Struct fs => HStruct fs (all fs)
  | types.Tuple es => HTuple es (all es)
  end.
End TypeInduction.

Definition type_error {A} (r : result A) : Prop :=
  match r with
  | Ok _ => True
  | Err (UnsupportedType _) => True
  | _ => False
  end.

Definition checkedFunction : ir.Function :=
  ir.mkFunction "main.f" [] [] "" true 1 false false false false.
Definition checkedFrame : Frame := mkFrame checkedFunction NilValue false NilValue false.

Definition nilSlice : Machine.rval :=
  Machine.RStruct [Machine.RPtr 0; Machine.RInt 0; Machine.RInt 0].

(** The SSA constant [0] of type [int]. *)
Definition intZero : ir.Const := ir.mkConst (types.Basic types.Int) (ir.CInt 0).





(** The instructions emitted between two states of the session. *)
Definition emitted (s s' : State) : list (nat * Instr) :=
  drop (length (code s)) (code s').









(** Overwrite the fields from position [i] on. *)
Fixpoint overwrite (i : nat) (rs fields : list Machine.rval) : list Machine.rval :=
  match rs with
  | [] => fields
  | r :: rs' => overwrite (S i) rs' (<[i := r]> fields)
  end.



Section Run.

(** How a call of a function that is not one of the modelled runtime
    helpers returns, if it does: the functions of the program, and the
    placeholders such as [runtime.interfaceMethod] that a later pass
    replaces. *)
Variable extern : string -> list Machine.rval -> option Machine.rval.

(** [TypeAllocSize] of the target. *)
Variable sizeOf : Type_ -> Z.

Definition stepWith (st : Machine.state) (ins : nat * Instr) : Machine.run Machine.state :=
  match ins.2 with
  | ICall fn actuals =>
      match Machine.eval st fn with
      | Machine.RFunc name =>
          match extern name (map (Machine.eval st) actuals) with
          | Some r => Machine.Done (Machine.setReg st ins.1 r)
          | None => Machine.step sizeOf st ins
          end
      | _ => Machine.step sizeOf st ins
      end
  | _ => Machine.step sizeOf st ins
  end.

Fixpoint execWith (st : Machine.state) (code : list (nat * Instr)) : Machine.run Machine.state :=
  match code with
  | [] => Machine.Done st
  | ins :: rest =>
      match stepWith st ins with
      | Machine.Done st' => execWith st' rest
      | Machine.Panic msg => Machine.Panic msg
      | Machine.Stuck => Machine.Stuck
      end
  end.

(** The state a block of code leads to ([st] itself if it does not
    finish). *)
Definition run (code : list (nat * Instr)) (st : Machine.state) : Machine.state :=
  match execWith st code with
  | Machine.Done st' => st'
  | _ => st
  end.



Variable c : Compiler.
Variable frame : Frame.





End Run.

Section ValueInduction.
Variable P : Value -> Prop.
Hypothesis HNil : P NilValue.
Hypothesis HInt : forall t n, P (ConstInt t n).
Hypothesis HFloat : forall t f, P (ConstFloat t f).
Hypothesis HNull : forall t, P (ConstPointerNull t).
Hypothesis HUndef : forall t, P (Undef t).
Hypothesis HArray : forall t vals, Forall P vals -> P (ConstArray t vals).
Hypothesis HStruct : forall vals, Forall P vals -> P (ConstStruct vals).
Hypothesis HNamed : forall t vals, Forall P vals -> P (ConstNamedStruct t vals).
Hypothesis HVector : forall vals, Forall P vals -> P (ConstVector vals).
Hypothesis HString : forall s, P (ConstString s).
Hypothesis HGEP : forall v idx, P v -> Forall P idx -> P (ConstInBoundsGEP v idx).
Hypothesis HBitCast : forall v t, P v -> P (ConstBitCast v t).
Hypothesis HIntToPtr : forall v t, P v -> P (ConstIntToPtr v t).
Hypothesis HGlobal : forall id t, P (Global id t).
Hypothesis HFunction : forall n t, P (Function n t).
Hypothesis HParam : forall i t, P (Param i t).
Hypothesis HInst : forall id t, P (Inst id t).

End ValueInduction.




(** *** Reading a materialised map literal back *)
(** The pointer a bucket's [next] field holds for the bucket global [b]. *)
Definition bucketLink (b : Value) : Value :=
  ConstBitCast (ConstInBoundsGEP b [constInt (IntType 32) 0]) i8ptrType.









(** Materialisation only adds to the module: the named types stay, and
    the globals that were there keep their place and initializer. *)
Definition extends (s s' : State) : Prop :=
  namedTypes (mod_ s) = namedTypes (mod_ s') /\
  globals (mod_ s) `prefix_of` globals (mod_ s').


(** One slot of a bucket as the literal fills it: tophash, key, value. *)
Abbreviation slotEntry := (Value * Value * Value)%type (only parsing).

(** The bucket global [b] holds the entries of [row] in its first slots
    and links to [next]. *)
Definition bucketHolds (g : list GlobalVar) (b : nat) (row : list slotEntry) (next : Value) : Prop :=
  exists gv tt tophash kt keys vt values,
    g !! b = Some gv /\
    ginit gv = Some (ConstStruct [ConstArray tt tophash; next;
                                  ConstArray kt keys; ConstArray vt values]) /\
    length tophash = 8%nat /\ length keys = 8%nat /\ length values = 8%nat /\
    (length row <= 8)%nat /\
    forall j e, row !! j = Some e ->
      tophash !! j = Some e.1.1 /\ keys !! j = Some e.1.2 /\ values !! j = Some e.2.

(** The chain of buckets from [b] to [cur], one per row, each linking to
    the next and the last one to null; later buckets are later globals. *)
Fixpoint bucketRows (g : list GlobalVar) (T : Type_) (b cur : nat)
  (rows : list (list slotEntry)) : Prop :=
  match rows with
  | [] => False
  | row :: rest =>
      match rest with
      | [] => b = cur /\ bucketHolds g b row (ConstPointerNull i8ptrType)
      | _ :: _ =>
          exists b', (b < b')%nat /\ length row = 8%nat /\
            bucketHolds g b row (bucketLink (Global b' T)) /\
            bucketRows g T b' cur rest
      end
  end.




(** The state with its list of globals replaced. *)
Definition withGlobals (s : State) (g : list GlobalVar) : State :=
  mkState (mkModule (namedTypes (mod_ s)) (functions (mod_ s)) g)
          (code s) (nextId s) (deferFuncs s) (deferInvokeFuncs s) (ctxDeferFuncs s).

(** What [SetInitializer] and [SetLinkage] do to a global. *)
Definition setInit (v : Value) (gv : GlobalVar) : GlobalVar :=
  mkGlobal (gname gv) (gtype gv) (Some v) (ginternal gv).
Definition setInternal (gv : GlobalVar) : GlobalVar :=
  mkGlobal (gname gv) (gtype gv) (ginit gv) true.


(** *** A concrete target and concrete programs for the closed examples *)
(** Sizes on a 32-bit target; a named struct is taken to be two words,
    as the runtime headers declared below are. *)
Fixpoint allocSize32 (t : Type_) : Z :=
  match t with
  | IntType w => (w + 7) / 8
  | FloatType | PointerType _ => 4
  | DoubleType | NamedStruct _ => 8
  | ArrayType e n | VectorType e n => Z.of_nat n * allocSize32 e
  | StructType ts => foldr (fun e acc => allocSize32 e + acc) 0 ts
  | _ => 0
  end.

(** A 32-bit FNV-1a over the key bytes and its top byte, never zero:
    stand-ins for the two hash helpers of the configuration. *)
Definition fnv1a (buf : list Z) : Z :=
  fold_left (fun h b => wrap 32 (Z.lxor h b * 16777619)) buf 2166136261.
Definition topByte (hash : Z) : Z :=
  let t := Z.shiftr hash 24 in if t <? 1 then t + 1 else t.

(** A session for a 32-bit microcontroller: no debug information, no
    scheduler, every parameter passed as a single fragment. *)
Definition cortexM : Compiler :=
  mkCompiler false 4 allocSize32 "main" false (fun _ => false) (fun t => [t])
             fnv1a topByte
             (fun _ m => (Err (UnsupportedConstant "not a constant initializer"), m)) 8.

(** The same target with goroutines in the program. *)
Definition cortexM_scheduler : Compiler :=
  mkCompiler false 4 allocSize32 "main" true (fun _ => false) (fun t => [t])
             fnv1a topByte
             (fun _ m => (Err (UnsupportedConstant "not a constant initializer"), m)) 8.







(** [func sleeper(n int)], a function that can suspend. *)
Definition sleeper : ir.Function :=
  ir.mkFunction "main.sleeper" [types.Basic types.Int] [] "" true 1 false false true false.

(** A suspending function taking a struct the module has no
    declaration for. *)
Definition sleeperOnMissingType : ir.Function :=
  ir.mkFunction "main.wait" [types.Named "main" "T" (types.Struct [])] []
                "" true 1 false false true false.

(** The synthetic wrapper around [main.main]. *)
Definition mainWrapperFn : ir.Function :=
  ir.mkFunction "runtime.mainWrapper" [] [] "" false 1 false false false false.

(** The runtime module with [main.main] and the scheduler declared. *)
Definition programModule : Module :=
  mkModule (namedTypes runtimeModule)
           (functions runtimeModule ++
              [("main.main", FunctionType i8ptrType [i8ptrType]);
               ("runtime.scheduler", FunctionType VoidType [i8ptrType])])
           [].







(** A heap whose byte at address [a] is [a mod 256], allocated up to
    address 16, with the strings at 0..1 and 8..10. *)
Definition countingHeap : Runtime.heap := Runtime.mk_heap (fun a => a mod 256) 16.

(** *** Well-formed LLVM types *)
(** LLVM has no vector type of length zero.  The type a constant
    vector reports is read off its first element, so this is the one
    condition under which [typeOf] can tell the type of a zero value. *)
Fixpoint noEmptyVector (t : Type_) : bool :=
  match t with
  | VectorType e n => negb (Nat.eqb n 0) && noEmptyVector e
  | ArrayType e _ => noEmptyVector e
  | StructType ts => forallb noEmptyVector ts
  | _ => true
  end.













End Spec.

(* ================================================================== *)
(** ** The runtime helpers: theorems *)
(* ================================================================== *)

Module RuntimeProofs.
Import Runtime Spec.

Lemma testbit_small l k n :
  0 <= l < 2 ^ k -> 0 <= k <= n -> Z.testbit l n = false.
Proof.
  intros Hl Hk. rewrite <- (Z.mod_small l (2 ^ k)) by lia.
  apply Z.mod_pow2_bits_high. lia.
Qed.

Lemma lor_shiftl_small h l k :
  0 <= k -> 0 <= l < 2 ^ k -> Z.lor (Z.shiftl h k) l = h * 2 ^ k + l.
Proof.
  intros Hk Hl.
  assert (Hdisj : Z.land (Z.shiftl h k) l = 0).
  { apply Z.bits_inj'; intros n Hn. rewrite Z.land_spec, Z.bits_0.
    destruct (Z.lt_ge_cases n k).
    - rewrite Z.shiftl_spec_low by lia. reflexivity.
    - rewrite (testbit_small l k n) by lia. apply andb_false_r. }
  rewrite <- Z.shiftl_mul_pow2 by lia.
  rewrite <- Z.lxor_lor, <- Z.add_nocarry_lxor; auto.
Qed.

Lemma land_lor_tag tag mask v k :
  0 <= k -> 0 <= v < 2 ^ k -> mask = Z.ones k -> Z.land tag (Z.ones k) = 0 ->
  Z.land (Z.lor tag v) mask = v.
Proof.
  intros Hk Hv -> Ht.
  rewrite Z.land_lor_distr_l, Ht, Z.lor_0_l, Z.land_ones by lia.
  apply Z.mod_small; lia.
Qed.

Lemma lor_tag_high tag mask v k :
  0 <= k -> 0 <= v < 2 ^ k -> Z.land v mask = 0 ->
  Z.land (Z.lor tag v) mask = Z.land tag mask.
Proof.
  intros Hk Hv Ht.
  rewrite Z.land_lor_distr_l, Ht, Z.lor_0_r. reflexivity.
Qed.

Lemma land_small_high v k mask :
  0 <= k -> 0 <= v < 2 ^ k -> Z.land mask (Z.ones k) = 0 -> Z.land v mask = 0.
Proof.
  intros Hk Hv Hm.
  rewrite <- (Z.mod_small v (2 ^ k)) by lia.
  rewrite <- Z.land_ones by lia.
  rewrite <- Z.land_assoc, (Z.land_comm (Z.ones k)), Hm. apply Z.land_0_r.
Qed.

Lemma land_tagged_high tag v mask k :
  0 <= k -> 0 <= v < 2 ^ k -> Z.land mask (Z.ones k) = 0 ->
  Z.land (Z.lor tag v) mask = Z.land tag mask.
Proof.
  intros Hk Hv Hm. apply lor_tag_high with k; auto.
  apply land_small_high with k; auto.
Qed.

Lemma land_tagged_low tag v k :
  0 <= k -> 0 <= v < 2 ^ k -> Z.land tag (Z.ones k) = 0 ->
  Z.land (Z.lor tag v) (Z.ones k) = v.
Proof. intros. apply land_lor_tag with k; auto. Qed.

Lemma lenType_small w n : 8 <= w -> 0 <= n < 256 -> lenType w n = n.
Proof.
  intros Hw Hn. unfold lenType. apply Z.mod_small.
  assert (2 ^ 8 <= 2 ^ w) by (apply Z.pow_le_mono_r; lia).
  change (2 ^ 8) with 256 in *. lia.
Qed.

Lemma index_0 a s : index (a :: s) 0 = Some a.
Proof. reflexivity. Qed.
Lemma index_1 a b s : index (a :: b :: s) 1 = Some b.
Proof. reflexivity. Qed.
Lemma index_2 a b c s : index (a :: b :: c :: s) 2 = Some c.
Proof. reflexivity. Qed.
Lemma index_3 a b c d s : index (a :: b :: c :: d :: s) 3 = Some d.
Proof. reflexivity. Qed.

Ltac decode_head w :=
  unfold decodeUTF8;
  cbn [length];
  rewrite index_0; cbn [mbind option_bind];
  rewrite (lenType_small w (Z.of_nat _)) by (cbn; lia);
  rewrite ?Z.sub_0_r, ?Z.add_0_l, !(lenType_small w) by (cbn; lia);
  rewrite ?index_1, ?index_2, ?index_3;
  cbn [mbind option_bind].

Lemma decode2 w h l :
  8 <= w -> 0 <= h < 32 -> 0 <= l < 64 ->
  decodeUTF8 w [Z.lor 0xc0 h; Z.lor 0x80 l] 0 = Some (h * 64 + l, 2).
Proof.
  intros Hw Hh Hl. decode_head w.
  rewrite (land_tagged_high 0xc0 h 0x80 5), (land_tagged_high 0xc0 h 0xe0 5) by (reflexivity || lia).
  change (Z.land 192 128 =? 0) with false. change (Z.land 192 224 =? 192) with true.
  change (2 <? 2) with false. cbn iota.
  change 31 with (Z.ones 5). change 63 with (Z.ones 6).
  rewrite !land_tagged_low by (reflexivity || lia).
  rewrite (lor_shiftl_small h l 6) by lia. reflexivity.
Qed.

Ltac zdm := first [lia | Z.div_mod_to_equations; lia].

Lemma lor_add m l k :
  0 <= k -> 0 <= l < 2 ^ k -> m mod 2 ^ k = 0 -> Z.lor m l = m + l.
Proof.
  intros Hk Hl Hm.
  assert (0 < 2 ^ k) by (apply Z.pow_pos_nonneg; lia).
  assert (E : m = m / 2 ^ k * 2 ^ k) by (pose proof (Z.div_mod m (2 ^ k)); lia).
  rewrite E at 1 2. rewrite <- Z.shiftl_mul_pow2 at 1 by lia.
  apply lor_shiftl_small; auto.
Qed.

Lemma decode3 w a b c :
  8 <= w -> 0 <= a < 16 -> 0 <= b < 64 -> 0 <= c < 64 ->
  decodeUTF8 w [Z.lor 0xe0 a; Z.lor 0x80 b; Z.lor 0x80 c] 0
  = Some (a * 4096 + b * 64 + c, 3).
Proof.
  intros Hw Ha Hb Hc. decode_head w.
  rewrite (land_tagged_high 0xe0 a 0x80 4), (land_tagged_high 0xe0 a 0xe0 4),
    (land_tagged_high 0xe0 a 0xf0 4) by (reflexivity || lia).
  change (Z.land 224 128 =? 0) with false. change (Z.land 224 224 =? 192) with false.
  change (Z.land 224 240 =? 224) with true.
  change (3 <? 3) with false. cbn iota.
  change 15 with (Z.ones 4). change 63 with (Z.ones 6).
  rewrite !land_tagged_low by (reflexivity || lia).
  rewrite !Z.shiftl_mul_pow2 by lia.
  change (2 ^ 12) with 4096; change (2 ^ 6) with 64.
  rewrite (lor_add (a * 4096) _ 12), (lor_add _ _ 6) by (change (2 ^ 12) with 4096; change (2 ^ 6) with 64; zdm).
  reflexivity.
Qed.

Lemma decode4 w a b c d :
  8 <= w -> 0 <= a < 8 -> 0 <= b < 64 -> 0 <= c < 64 -> 0 <= d < 64 ->
  decodeUTF8 w [Z.lor 0xf0 a; Z.lor 0x80 b; Z.lor 0x80 c; Z.lor 0x80 d] 0
  = Some (a * 262144 + b * 4096 + c * 64 + d, 4).
Proof.
  intros Hw Ha Hb Hc Hd. decode_head w.
  rewrite (land_tagged_high 0xf0 a 0x80 3), (land_tagged_high 0xf0 a 0xe0 3),
    (land_tagged_high 0xf0 a 0xf0 3), (land_tagged_high 0xf0 a 0xf8 3) by (reflexivity || lia).
  change (Z.land 240 128 =? 0) with false. change (Z.land 240 224 =? 192) with false.
  change (Z.land 240 240 =? 224) with false. change (Z.land 240 248 =? 240) with true.
  change (4 <? 4) with false. cbn iota.
  change 7 with (Z.ones 3). change 63 with (Z.ones 6).
  rewrite !land_tagged_low by (reflexivity || lia).
  rewrite !Z.shiftl_mul_pow2 by lia.
  change (2 ^ 18) with 262144; change (2 ^ 12) with 4096; change (2 ^ 6) with 64.
  rewrite (lor_add (a * 262144) _ 18), (lor_add (_ + b * 4096) _ 12), (lor_add _ _ 6)
    by (change (2 ^ 18) with 262144; change (2 ^ 12) with 4096; change (2 ^ 6) with 64; zdm).
  reflexivity.
Qed.

Lemma decode1 w x :
  8 <= w -> 0 <= x < 128 -> decodeUTF8 w [x] 0 = Some (x, 1).
Proof.
  intros Hw Hx. decode_head w.
  change 128 with (2 ^ 7) at 1. 
  rewrite (land_small_high x 7 (2 ^ 7)) by (reflexivity || lia). reflexivity.
Qed.

(** C9: UTF-8 round trip.  For every rune [x] with 0 <= x <= 0x10ffff,
    [encodeUTF8 x] returns a length between 1 and 4, and [decodeUTF8] at
    index 0 of the string made of the first length bytes of the returned
    array gives back [x] and that length.  [w] is the width of [lenType],
    which the decoder counts in; it is at least 8 bits. *)
Theorem utf8_roundtrip w x :
  8 <= w -> 0 <= x <= 0x10ffff ->
  1 <= snd (encodeUTF8 x) <= 4 /\
  decodeUTF8 w (take (Z.to_nat (snd (encodeUTF8 x))) (fst (encodeUTF8 x))) 0
  = Some (x, snd (encodeUTF8 x)).
Proof.
  intros Hw Hx. unfold encodeUTF8, byte_.
  destruct (Z.leb_spec x 0x7f); [|destruct (Z.leb_spec x 0x7ff); [|destruct (Z.leb_spec x 0xffff);
    [|destruct (Z.leb_spec x 0x10ffff); [|lia]]]]; cbn [fst snd]; (split; [lia|]).
  - change (take _ _) with [x mod 256]. rewrite Z.mod_small by zdm. apply decode1; lia.
  - change (take _ ?l) with (take 2 l). cbn [take].
    rewrite Z.shiftr_div_pow2 by zdm. change 63 with (Z.ones 6).
    rewrite Z.land_ones by zdm.
    rewrite !Z.mod_small by zdm.
    rewrite decode2 by zdm. do 2 f_equal. zdm.
  - change (take _ ?l) with (take 3 l). cbn [take].
    rewrite Z.shiftr_0_r, !Z.shiftr_div_pow2 by zdm. change 63 with (Z.ones 6).
    rewrite !Z.land_ones by zdm.
    rewrite !(Z.mod_small _ 256) by zdm.
    rewrite decode3 by zdm. do 2 f_equal. zdm.
  - change (take _ ?l) with (take 4 l). cbn [take].
    rewrite Z.shiftr_0_r, !Z.shiftr_div_pow2 by zdm. change 63 with (Z.ones 6).
    rewrite !Z.land_ones by zdm.
    rewrite !(Z.mod_small _ 256) by zdm.
    rewrite decode4 by zdm. do 2 f_equal. zdm.
Qed.

(** stringEqual / stringLess against list equality and lex order *)
Lemma index_app_length (p s : gostring) :
  index (p ++ s) (Z.of_nat (length p)) = head s.
Proof.
  unfold index. destruct (Z.ltb_spec (Z.of_nat (length p)) 0); [lia|].
  rewrite Nat2Z.id, lookup_app_r by lia.
  rewrite Nat.sub_diag. destruct s; reflexivity.
Qed.

Lemma stringEqual_loop_spec (x y p q : gostring) :
  length p = length q -> length x = length y ->
  stringEqual_loop (p ++ x) (q ++ y) (Z.of_nat (length p)) (length x)
  = Some (bool_decide (x = y)).
Proof.
  revert y p q. induction x as [|a x IH]; intros [|b y] p q Hpq Hxy; try discriminate.
  - reflexivity.
  - cbn [length stringEqual_loop].
    rewrite index_app_length. rewrite Hpq, index_app_length. cbn.
    destruct (Z.eqb_spec a b) as [->|Hab]; cbn.
    + replace (Z.of_nat (length q) + 1) with (Z.of_nat (length (q ++ [b]))) by (rewrite length_app; cbn; lia).
      replace (p ++ b :: x) with ((p ++ [b]) ++ x) by (rewrite <- app_assoc; reflexivity).
      replace (q ++ b :: y) with ((q ++ [b]) ++ y) by (rewrite <- app_assoc; reflexivity).
      replace (length (q ++ [b])) with (length (p ++ [b])) by (rewrite !length_app; cbn; lia).
      rewrite IH by (rewrite ?length_app; cbn in *; lia).
      f_equal. apply bool_decide_ext. split; [intros ->; reflexivity | congruence].
    + f_equal. symmetry. apply bool_decide_eq_false. congruence.
Qed.

Lemma stringEqual_spec (x y : gostring) :
  stringEqual x y = Some (bool_decide (x = y)).
Proof.
  unfold stringEqual.
  destruct (Z.eqb_spec (Z.of_nat (length x)) (Z.of_nat (length y))) as [E|E]; cbn.
  - apply (stringEqual_loop_spec x y [] []); [reflexivity | lia].
  - f_equal. symmetry. apply bool_decide_eq_false. intros ->. lia.
Qed.

Lemma stringLess_loop_spec (x y p q : gostring) :
  length p = length q ->
  stringLess_loop (p ++ x) (q ++ y) (Z.of_nat (length p)) (min (length x) (length y))
  = Some (lex_prefix x y).
Proof.
  revert y p q. induction x as [|a x IH]; intros [|b y] p q Hpq; try reflexivity.
  cbn [length Nat.min stringLess_loop].
  rewrite index_app_length. rewrite Hpq, index_app_length. cbn.
  destruct (a <? b); [reflexivity|]. destruct (a >? b); [reflexivity|].
  replace (Z.of_nat (length q) + 1) with (Z.of_nat (length (q ++ [b]))) by (rewrite length_app; cbn; lia).
  replace (p ++ a :: x) with ((p ++ [a]) ++ x) by (rewrite <- app_assoc; reflexivity).
  replace (q ++ b :: y) with ((q ++ [b]) ++ y) by (rewrite <- app_assoc; reflexivity).
  replace (length (q ++ [b])) with (length (p ++ [a])) by (rewrite !length_app; cbn; lia).
  apply IH. rewrite !length_app; cbn; lia.
Qed.

Lemma lex_prefix_lt (x y : gostring) :
  match lex_prefix x y with
  | Some b => b
  | None => Z.of_nat (length x) <? Z.of_nat (length y)
  end = lex_lt x y.
Proof.
  revert y. induction x as [|a x IH]; intros [|b y]; cbn [lex_prefix lex_lt length]; try reflexivity.
  destruct (Z.ltb_spec a b); [reflexivity|]. cbn.
  destruct (Z.gtb_spec a b).
  - destruct (Z.eqb_spec a b); [lia | reflexivity].
  - destruct (Z.eqb_spec a b); [|lia]. cbn. rewrite <- IH.
    destruct (lex_prefix x y); [reflexivity|].
    destruct (Z.ltb_spec (Z.of_nat (length x)) (Z.of_nat (length y))),
      (Z.ltb_spec (Z.of_nat (S (length x))) (Z.of_nat (S (length y)))); lia || reflexivity.
Qed.

Lemma stringLess_spec (x y : gostring) :
  stringLess x y = Some (lex_lt x y).
Proof.
  unfold stringLess.
  replace (if (length y <? length x)%nat then length y else length x)
    with (min (length x) (length y)) by (destruct (Nat.ltb_spec (length y) (length x)); lia).
  pose proof (stringLess_loop_spec x y [] [] eq_refl) as H.
  change (stringLess_loop x y 0 (length x `min` length y) = Some (lex_prefix x y)) in H.
  rewrite H. cbn.
  rewrite <- lex_prefix_lt. destruct (lex_prefix x y); reflexivity.
Qed.

(** C8: [interfaceEqual] returns false on different typecodes and true
    when both typecodes are 0; on equal typecodes that are not 0 it
    panics with "unimplemented: interface equality" and so returns no
    value. *)
Theorem interfaceEqual_cases (x y : _interface) :
  (typecode x <> typecode y -> interfaceEqual x y = Returns false) /\
  (typecode x = 0 -> typecode y = 0 -> interfaceEqual x y = Returns true) /\
  (typecode x = typecode y -> typecode x <> 0 ->
   interfaceEqual x y = Panics "unimplemented: interface equality" /\
   forall b, interfaceEqual x y <> Returns b).
Proof.
  unfold interfaceEqual. repeat split.
  - intros H. destruct (Z.eqb_spec (typecode x) (typecode y)); [contradiction | reflexivity].
  - intros Hx Hy. rewrite Hx, Hy. reflexivity.
  - destruct (Z.eqb_spec (typecode x) (typecode y)); [|contradiction].
    destruct (Z.eqb_spec (typecode x) 0); [contradiction | reflexivity].
  - intros b. destruct (Z.eqb_spec (typecode x) (typecode y)); [|contradiction].
    destruct (Z.eqb_spec (typecode x) 0); [contradiction | discriminate].
Qed.





(** The euro sign U+20AC takes three bytes and decodes back. *)
Lemma utf8_roundtrip_witness :
  Runtime.decodeUTF8 32 (take 3 (fst (Runtime.encodeUTF8 0x20ac))) 0 = Some (0x20ac, 3).
Proof.
  exact (proj2 (utf8_roundtrip 32 0x20ac ltac:(lia) ltac:(lia))).
Defined.


(** *** The order [stringLess] decides *)
Lemma lex_lt_irrefl (x : gostring) : lex_lt x x = false.
Proof.
  induction x as [|a x IH]; [reflexivity|]. cbn.
  rewrite Z.ltb_irrefl, Z.eqb_refl, IH. reflexivity.
Qed.

Lemma lex_lt_trans (x : gostring) : forall y z,
  lex_lt x y = true -> lex_lt y z = true -> lex_lt x z = true.
Proof.
  induction x as [|a x IH]; intros [|b y] [|c z]; cbn; try discriminate; auto.
  intros Hxy Hyz.
  apply orb_true_iff in Hxy, Hyz. apply orb_true_iff.
  destruct Hxy as [Hab|[Hab Hxy]%andb_true_iff], Hyz as [Hbc|[Hbc Hyz]%andb_true_iff].
  - left. apply Z.ltb_lt in Hab, Hbc. apply Z.ltb_lt. lia.
  - left. apply Z.ltb_lt in Hab. apply Z.eqb_eq in Hbc. apply Z.ltb_lt. lia.
  - left. apply Z.ltb_lt in Hbc. apply Z.eqb_eq in Hab. apply Z.ltb_lt. lia.
  - right. apply Z.eqb_eq in Hab, Hbc. apply andb_true_iff. split.
    + apply Z.eqb_eq. lia.
    + eapply IH; eassumption.
Qed.

Lemma lex_lt_total (x : gostring) : forall y,
  x <> y -> lex_lt x y = true \/ lex_lt y x = true.
Proof.
  induction x as [|a x IH]; intros [|b y] Hne; cbn; auto; try congruence.
  destruct (Z.ltb_spec a b); [auto|]. destruct (Z.ltb_spec b a); [auto|].
  assert (a = b) by lia. subst b. rewrite Z.eqb_refl. cbn.
  apply IH. congruence.
Qed.

Lemma lex_lt_asym (x : gostring) : forall y,
  lex_lt x y = true -> lex_lt y x = false.
Proof.
  intros y H. destruct (lex_lt y x) eqn:E; [|reflexivity].
  pose proof (lex_lt_trans _ _ _ H E) as Hxx. rewrite lex_lt_irrefl in Hxx. discriminate.
Qed.

Lemma lex_lt_iff (x : gostring) : forall y, lex_lt x y = true <-> lexBefore x y.
Proof.
  induction x as [|a x IH]; intros [|b y]; cbn.
  - split; [discriminate|]. intros [(q & Hq & E)|(p & a & b & x' & y' & E & _)].
    + destruct q; [contradiction|discriminate].
    + destruct p; discriminate.
  - split; [|reflexivity]. intros _. left. exists (b :: y). split; [discriminate|reflexivity].
  - split; [discriminate|]. intros [(q & Hq & E)|(p & a' & b & x' & y' & _ & E & _)].
    + discriminate.
    + destruct p; discriminate.
  - rewrite orb_true_iff, andb_true_iff, Z.ltb_lt, Z.eqb_eq, IH. split.
    + intros [Hlt|[-> [(q & Hq & ->)|(p & a' & b' & x' & y' & -> & -> & Hlt)]]].
      * right. exists [], a, b, x, y. auto.
      * left. exists q. auto.
      * right. exists (b :: p), a', b', x', y'. auto.
    + intros [(q & Hq & E)|(p & a' & b' & x' & y' & Ex & Ey & Hlt)].
      * injection E as -> ->. right. split; [reflexivity|]. left. exists q. auto.
      * destruct p as [|c p]; cbn in Ex, Ey.
        -- injection Ex as -> ->. injection Ey as -> ->. auto.
        -- injection Ex as -> ->. injection Ey as -> ->. right. split; [reflexivity|].
           right. exists p, a', b', x', y'. auto.
Qed.

(** X1: [stringEqual] decides equality of strings. *)
Theorem stringEqual_decides (x y : gostring) :
  (x = y -> stringEqual x y = Some true) /\
  (x <> y -> stringEqual x y = Some false).
Proof.
  rewrite stringEqual_spec. split; intros H.
  - rewrite bool_decide_eq_true_2 by exact H. reflexivity.
  - rewrite bool_decide_eq_false_2 by exact H. reflexivity.
Qed.

(** X2: [stringLess] always answers, and answers true exactly when x
    comes before y in the lexicographic order on bytes. *)
Theorem stringLess_lexicographic (x y : gostring) :
  (exists b, stringLess x y = Some b) /\
  (stringLess x y = Some true <-> lexBefore x y).
Proof.
  rewrite stringLess_spec. split; [eauto|].
  rewrite <- lex_lt_iff. split; [intros [= H]; exact H|intros ->; reflexivity].
Qed.

(** X3: [stringLess] is a strict total order, and together with
    [stringEqual] it is trichotomous. *)
Theorem stringLess_strict_total_order (x y z : gostring) :
  stringLess x x = Some false /\
  (stringLess x y = Some true -> stringLess y z = Some true ->
   stringLess x z = Some true) /\
  (stringLess x y = Some true -> stringLess y x = Some false) /\
  (stringLess x y = Some true \/ stringEqual x y = Some true \/
   stringLess y x = Some true).
Proof.
  rewrite !stringLess_spec, stringEqual_spec. split; [|split; [|split]].
  - rewrite lex_lt_irrefl. reflexivity.
  - intros [= H1] [= H2]. rewrite (lex_lt_trans _ _ _ H1 H2). reflexivity.
  - intros [= H]. rewrite (lex_lt_asym _ _ H). reflexivity.
  - destruct (decide (x = y)) as [E|E].
    + right. left. rewrite bool_decide_eq_true_2 by exact E. reflexivity.
    + destruct (lex_lt_total _ _ E) as [H|H]; rewrite H; auto.
Qed.

(** *** [decodeUTF8] stays inside the string *)
Lemma index_in_range (s : gostring) i :
  0 <= i < Z.of_nat (length s) -> exists x, index s i = Some x.
Proof.
  intros H. unfold index. destruct (Z.ltb_spec i 0); [lia|].
  apply lookup_lt_is_Some_2. lia.
Qed.

Lemma lenType_id w n : 0 <= n < 2 ^ w -> lenType w n = n.
Proof. intros H. apply Z.mod_small, H. Qed.

(** X4: called on an index inside the string, [decodeUTF8] reads no byte
    past the end of the string, consumes between one and four bytes and
    never more than are left. *)
Theorem decodeUTF8_in_bounds (w : Z) (s : gostring) (idx : Z) :
  0 <= idx < Z.of_nat (length s) -> Z.of_nat (length s) < 2 ^ w ->
  exists r n,
    decodeUTF8 w s idx = Some (r, n) /\ 1 <= n <= 4 /\ idx + n <= Z.of_nat (length s).
Proof.
  intros Hidx Hlen. unfold decodeUTF8.
  rewrite (lenType_id w (Z.of_nat (length s))) by lia.
  rewrite (lenType_id w (Z.of_nat (length s) - idx)) by lia.
  destruct (index_in_range s idx Hidx) as [x ->]. cbn [mbind option_bind].
  assert (Hnext : forall k, 0 <= k -> idx + k < Z.of_nat (length s) ->
            exists b, index s (lenType w (idx + k)) = Some b).
  { intros k Hk Hin. rewrite lenType_id by lia. apply index_in_range. lia. }
  destruct (Z.land x 128 =? 0); [exists x, 1; split; [reflexivity|lia]|].
  destruct (Z.land x 224 =? 192).
  { destruct (Z.ltb_spec (Z.of_nat (length s) - idx) 2);
      [exists 65533, 1; split; [reflexivity|lia]|].
    destruct (Hnext 1 ltac:(lia) ltac:(lia)) as [b1 ->]. cbn [mbind option_bind].
    eexists _, 2. split; [reflexivity|lia]. }
  destruct (Z.land x 240 =? 224).
  { destruct (Z.ltb_spec (Z.of_nat (length s) - idx) 3);
      [exists 65533, 1; split; [reflexivity|lia]|].
    destruct (Hnext 1 ltac:(lia) ltac:(lia)) as [b1 ->].
    destruct (Hnext 2 ltac:(lia) ltac:(lia)) as [b2 ->]. cbn [mbind option_bind].
    eexists _, 3. split; [reflexivity|lia]. }
  destruct (Z.land x 248 =? 240).
  { destruct (Z.ltb_spec (Z.of_nat (length s) - idx) 4);
      [exists 65533, 1; split; [reflexivity|lia]|].
    destruct (Hnext 1 ltac:(lia) ltac:(lia)) as [b1 ->].
    destruct (Hnext 2 ltac:(lia) ltac:(lia)) as [b2 ->].
    destruct (Hnext 3 ltac:(lia) ltac:(lia)) as [b3 ->]. cbn [mbind option_bind].
    eexists _, 4. split; [reflexivity|lia]. }
  exists 65533, 1. split; [reflexivity|lia].
Qed.

Lemma decodeUTF8_in_bounds_witness :
  exists r n, decodeUTF8 32 [0xe2; 0x82] 0 = Some (r, n) /\ 1 <= n <= 4 /\ 0 + n <= 2.
Proof.
  exact (decodeUTF8_in_bounds 32 [0xe2; 0x82] 0 ltac:(cbn; lia) ltac:(cbn; lia)).
Defined.

(** *** Ranging over a string *)
Lemma int_id intBits n : 0 <= n < 2 ^ (intBits - 1) -> int_ intBits n = n.
Proof.
  intros H. unfold int_.
  assert (0 < intBits).
  { destruct (Z.ltb_spec 0 intBits); [auto|].
    rewrite Z.pow_neg_r in H by lia. lia. }
  assert (2 ^ intBits = 2 * 2 ^ (intBits - 1)).
  { rewrite <- Z.pow_succ_r by lia. f_equal. lia. }
  rewrite Z.mod_small by lia.
  destruct (Z.ltb_spec n (2 ^ (intBits - 1))); [reflexivity|lia].
Qed.

(** One call of [stringNext] on an iterator inside the string. *)
Lemma stringNext_step lenBits intBits (s : gostring) (it : stringIterator) :
  Z.of_nat (length s) < 2 ^ lenBits -> Z.of_nat (length s) < 2 ^ (intBits - 1) ->
  0 <= rangeindex it <= byteindex it -> byteindex it <= Z.of_nat (length s) ->
  (byteindex it = Z.of_nat (length s) ->
   stringNext lenBits intBits s it = Some ((false, 0, 0), it)) /\
  (byteindex it < Z.of_nat (length s) ->
   exists r n,
     decodeUTF8 lenBits s (byteindex it) = Some (r, n) /\ 1 <= n <= 4 /\
     byteindex it + n <= Z.of_nat (length s) /\
     stringNext lenBits intBits s it
     = Some ((true, rangeindex it + 1, r),
             mk_iterator (byteindex it + n) (rangeindex it + 1))).
Proof.
  intros Hl Hi Hr Hb. unfold stringNext. rewrite (int_id intBits (byteindex it)) by lia.
  split.
  - intros E. destruct (Z.leb_spec (Z.of_nat (length s)) (byteindex it)); [reflexivity|lia].
  - intros Hlt. destruct (Z.leb_spec (Z.of_nat (length s)) (byteindex it)); [lia|].
    destruct (decodeUTF8_in_bounds lenBits s (byteindex it) ltac:(lia) Hl)
      as (r & n & E & Hn & Hend).
    exists r, n. rewrite E. cbn [mbind option_bind]. cbn [rangeindex].
    rewrite !lenType_id by lia. rewrite int_id by lia. auto.
Qed.

Lemma rangeString_total_from lenBits intBits (s : gostring) : forall fuel it,
  Z.of_nat (length s) < 2 ^ lenBits -> Z.of_nat (length s) < 2 ^ (intBits - 1) ->
  0 <= rangeindex it <= byteindex it -> byteindex it <= Z.of_nat (length s) ->
  (Z.of_nat (length s) - byteindex it < Z.of_nat fuel) ->
  exists runes,
    rangeString lenBits intBits fuel s it = Some (counted (rangeindex it + 1) runes) /\
    Z.of_nat (length runes) <= Z.of_nat (length s) - byteindex it.
Proof.
  induction fuel as [|fuel IH]; intros it Hl Hi Hr Hb Hf; [lia|].
  destruct (stringNext_step lenBits intBits s it Hl Hi Hr Hb) as [Hend Hmore].
  cbn [rangeString].
  destruct (Z.eq_dec (byteindex it) (Z.of_nat (length s))) as [E|E].
  - rewrite (Hend E). cbn [mbind option_bind]. exists []. split; [reflexivity|].
    cbn [length]. lia.
  - destruct (Hmore ltac:(lia)) as (r & n & _ & Hn & Hin & ->). cbn [mbind option_bind].
    destruct (IH (mk_iterator (byteindex it + n) (rangeindex it + 1)) Hl Hi)
      as (runes & -> & Hlen); cbn [byteindex rangeindex]; try lia.
    cbn [byteindex rangeindex] in Hlen.
    cbn [mbind option_bind]. exists (r :: runes). split; [reflexivity|cbn [length]; lia].
Qed.

(** X5: a range over any string ends: started from the zero iterator,
    [stringNext] answers false after at most [len(s)] runes, and the
    keys it reports count the runes 1, 2, 3, ... *)
Theorem rangeString_total (lenBits intBits : Z) (s : gostring) :
  Z.of_nat (length s) < 2 ^ lenBits -> Z.of_nat (length s) < 2 ^ (intBits - 1) ->
  exists runes,
    rangeString lenBits intBits (S (length s)) s (mk_iterator 0 0)
    = Some (counted 1 runes) /\
    (length runes <= length s)%nat.
Proof.
  intros Hl Hi.
  destruct (rangeString_total_from lenBits intBits s (S (length s)) (mk_iterator 0 0) Hl Hi)
    as (runes & E & Hlen); cbn [byteindex rangeindex]; try lia.
  exists runes. split; [exact E|]. cbn [byteindex] in Hlen. lia.
Qed.

Lemma rangeString_total_witness :
  exists runes,
    rangeString 32 32 4 [0x61; 0xc3; 0xa9] (mk_iterator 0 0) = Some (counted 1 runes) /\
    (length runes <= 3)%nat.
Proof.
  exact (rangeString_total 32 32 [0x61; 0xc3; 0xa9] ltac:(cbn; lia) ltac:(cbn; lia)).
Defined.

(** *** Decoding in the middle of a string *)
Lemma index_shift (p s : gostring) k :
  0 <= k -> index (p ++ s) (Z.of_nat (length p) + k) = index s k.
Proof.
  intros Hk. unfold index.
  destruct (Z.ltb_spec (Z.of_nat (length p) + k) 0); [lia|].
  destruct (Z.ltb_spec k 0); [lia|].
  rewrite lookup_app_r by lia. f_equal. lia.
Qed.

Lemma index_prefix (e q : gostring) k :
  0 <= k < Z.of_nat (length e) -> index (e ++ q) k = index e k.
Proof.
  intros Hk. unfold index. destruct (Z.ltb_spec k 0); [lia|].
  apply lookup_app_l. lia.
Qed.

(** What is before the index does not matter to the decoder. *)
Lemma decodeUTF8_shift w (p s : gostring) :
  Z.of_nat (length (p ++ s)) < 2 ^ w ->
  decodeUTF8 w (p ++ s) (Z.of_nat (length p)) = decodeUTF8 w s 0.
Proof.
  intros Hlen. rewrite length_app, Nat2Z.inj_add in Hlen. unfold decodeUTF8.
  rewrite length_app, Nat2Z.inj_add.
  rewrite (lenType_id w (Z.of_nat (length p) + Z.of_nat (length s))) by lia.
  rewrite (lenType_id w (Z.of_nat (length s))) by lia.
  replace (Z.of_nat (length p) + Z.of_nat (length s) - Z.of_nat (length p))
    with (Z.of_nat (length s)) by lia.
  rewrite Z.sub_0_r.
  rewrite (lenType_id w (Z.of_nat (length s))) by lia.
  rewrite <- (Z.add_0_r (Z.of_nat (length p))) at 1. rewrite index_shift by lia.
  destruct (index s 0) as [x|]; [|reflexivity]. cbn [mbind option_bind].
  assert (Hnext : forall k, 0 < k -> k < Z.of_nat (length s) ->
            index (p ++ s) (lenType w (Z.of_nat (length p) + k)) = index s (lenType w (0 + k))).
  { intros k Hk Hin. rewrite !lenType_id by lia. apply index_shift. lia. }
  destruct (Z.land x 128 =? 0); [reflexivity|].
  destruct (Z.land x 224 =? 192).
  { destruct (Z.ltb_spec (Z.of_nat (length s)) 2); [reflexivity|].
    rewrite Hnext by lia. reflexivity. }
  destruct (Z.land x 240 =? 224).
  { destruct (Z.ltb_spec (Z.of_nat (length s)) 3); [reflexivity|].
    rewrite !Hnext by lia. reflexivity. }
  destruct (Z.land x 248 =? 240).
  { destruct (Z.ltb_spec (Z.of_nat (length s)) 4); [reflexivity|].
    rewrite !Hnext by lia. reflexivity. }
  reflexivity.
Qed.

(** A sequence the decoder consumes whole decodes the same way with
    more bytes behind it, unless it was cut short. *)
Lemma decodeUTF8_suffix w (e q : gostring) r :
  Z.of_nat (length (e ++ q)) < 2 ^ w ->
  decodeUTF8 w e 0 = Some (r, Z.of_nat (length e)) ->
  (length e = 1%nat -> r <> 0xfffd) ->
  decodeUTF8 w (e ++ q) 0 = Some (r, Z.of_nat (length e)).
Proof.
  intros Hlen. rewrite length_app, Nat2Z.inj_add in Hlen. unfold decodeUTF8.
  rewrite length_app, Nat2Z.inj_add.
  rewrite (lenType_id w (Z.of_nat (length e) + Z.of_nat (length q))) by lia.
  rewrite (lenType_id w (Z.of_nat (length e))) by lia.
  rewrite !Z.sub_0_r.
  rewrite (lenType_id w (Z.of_nat (length e) + Z.of_nat (length q))) by lia.
  rewrite (lenType_id w (Z.of_nat (length e))) by lia.
  destruct e as [|x e]; [discriminate|].
  rewrite (index_prefix (x :: e) q 0) by (cbn [length]; lia).
  change (index (x :: e) 0) with (Some x). cbn [mbind option_bind].
  assert (Hnext : forall k, 0 < k -> k < Z.of_nat (length (x :: e)) ->
            index ((x :: e) ++ q) (lenType w (0 + k)) = index (x :: e) (lenType w (0 + k))).
  { intros k Hk Hin. rewrite !lenType_id by lia. apply index_prefix. lia. }
  destruct (Z.land x 128 =? 0); [auto|].
  destruct (Z.land x 224 =? 192).
  { destruct (Z.ltb_spec (Z.of_nat (length (x :: e))) 2).
    - intros [= <- E] Hne. destruct e; [|cbn [length] in E; lia]. exfalso. apply Hne; reflexivity.
    - destruct (Z.ltb_spec (Z.of_nat (length (x :: e)) + Z.of_nat (length q)) 2); [lia|].
      rewrite Hnext by lia. auto. }
  destruct (Z.land x 240 =? 224).
  { destruct (Z.ltb_spec (Z.of_nat (length (x :: e))) 3).
    - intros [= <- E] Hne. destruct e; [|cbn [length] in E; lia]. exfalso. apply Hne; reflexivity.
    - destruct (Z.ltb_spec (Z.of_nat (length (x :: e)) + Z.of_nat (length q)) 3); [lia|].
      rewrite !Hnext by lia. auto. }
  destruct (Z.land x 248 =? 240).
  { destruct (Z.ltb_spec (Z.of_nat (length (x :: e))) 4).
    - intros [= <- E] Hne. destruct e; [|cbn [length] in E; lia]. exfalso. apply Hne; reflexivity.
    - destruct (Z.ltb_spec (Z.of_nat (length (x :: e)) + Z.of_nat (length q)) 4); [lia|].
      rewrite !Hnext by lia. auto. }
  auto.
Qed.

(** The bytes of a valid rune decode to it, on their own. *)
Lemma utf8_decodes w x :
  8 <= w -> 0 <= x <= 0x10ffff ->
  (1 <= length (utf8 x) <= 4)%nat /\
  (length (utf8 x) = 1%nat -> x <= 0x7f) /\
  decodeUTF8 w (utf8 x) 0 = Some (x, Z.of_nat (length (utf8 x))).
Proof.
  intros Hw Hx. unfold utf8, encodeUTF8, byte_.
  destruct (Z.leb_spec x 0x7f); [|destruct (Z.leb_spec x 0x7ff); [|destruct (Z.leb_spec x 0xffff);
    [|destruct (Z.leb_spec x 0x10ffff); [|lia]]]]; cbn [fst snd].
  - change (take _ _) with [x mod 256]. cbn [length].
    split; [lia|]. split; [lia|].
    rewrite Z.mod_small by zdm. apply decode1; lia.
  - change (take _ ?l) with (take 2 l). cbn [take length].
    split; [lia|]. split; [discriminate|].
    rewrite Z.shiftr_div_pow2 by zdm. change 63 with (Z.ones 6).
    rewrite Z.land_ones by zdm.
    rewrite !Z.mod_small by zdm.
    rewrite decode2 by zdm. do 2 f_equal. zdm.
  - change (take _ ?l) with (take 3 l). cbn [take length].
    split; [lia|]. split; [discriminate|].
    rewrite Z.shiftr_0_r, !Z.shiftr_div_pow2 by zdm. change 63 with (Z.ones 6).
    rewrite !Z.land_ones by zdm.
    rewrite !(Z.mod_small _ 256) by zdm.
    rewrite decode3 by zdm. do 2 f_equal. zdm.
  - change (take _ ?l) with (take 4 l). cbn [take length].
    split; [lia|]. split; [discriminate|].
    rewrite Z.shiftr_0_r, !Z.shiftr_div_pow2 by zdm. change 63 with (Z.ones 6).
    rewrite !Z.land_ones by zdm.
    rewrite !(Z.mod_small _ 256) by zdm.
    rewrite decode4 by zdm. do 2 f_equal. zdm.
Qed.

(** ... and so they do wherever they stand in a string. *)
Lemma utf8_decodes_within w (p q : gostring) x :
  8 <= w -> 0 <= x <= 0x10ffff ->
  Z.of_nat (length (p ++ utf8 x ++ q)) < 2 ^ w ->
  decodeUTF8 w (p ++ utf8 x ++ q) (Z.of_nat (length p))
  = Some (x, Z.of_nat (length (utf8 x))).
Proof.
  intros Hw Hx Hlen. destruct (utf8_decodes w x Hw Hx) as (Hn & Hone & Hdec).
  rewrite decodeUTF8_shift by exact Hlen.
  apply decodeUTF8_suffix; auto.
  - rewrite length_app in Hlen. lia.
  - intros H1. specialize (Hone H1). lia.
Qed.

Lemma utf8String_length (runes : list Z) :
  Forall (fun r => 0 <= r <= 0x10ffff) runes ->
  (length runes <= length (utf8String runes))%nat.
Proof.
  induction 1 as [|r rs Hr _ IH]; [reflexivity|].
  cbn [utf8String flat_map length]. rewrite length_app.
  destruct (utf8_decodes 8 r ltac:(lia) Hr) as (Hn & _). unfold utf8String in IH. lia.
Qed.

Lemma rangeString_utf8_from lenBits intBits : forall runes p k fuel,
  8 <= lenBits ->
  Forall (fun r => 0 <= r <= 0x10ffff) runes ->
  Z.of_nat (length (p ++ utf8String runes)) < 2 ^ lenBits ->
  Z.of_nat (length (p ++ utf8String runes)) < 2 ^ (intBits - 1) ->
  0 <= k <= Z.of_nat (length p) ->
  (length runes < fuel)%nat ->
  rangeString lenBits intBits fuel (p ++ utf8String runes)
              (mk_iterator (Z.of_nat (length p)) k)
  = Some (counted (k + 1) runes).
Proof.
  induction runes as [|r rs IH]; intros p k fuel Hw Hv Hl Hi Hk Hf;
    (destruct fuel as [|fuel]; [cbn in Hf; lia|]); cbn [rangeString].
  - destruct (stringNext_step lenBits intBits (p ++ utf8String []) (mk_iterator (Z.of_nat (length p)) k)
                Hl Hi) as [Hend _]; cbn [byteindex rangeindex]; try lia.
    { cbn. rewrite app_nil_r. lia. }
    rewrite Hend by (cbn; rewrite app_nil_r; reflexivity). reflexivity.
  - inversion_clear Hv as [|? ? Hr Hrs].
    destruct (utf8_decodes lenBits r Hw Hr) as (Hn & _).
    assert (Hlen : length (p ++ utf8String (r :: rs))
                   = (length p + length (utf8 r) + length (utf8String rs))%nat).
    { cbn [utf8String flat_map]. rewrite !length_app. unfold utf8String. lia. }
    destruct (stringNext_step lenBits intBits (p ++ utf8String (r :: rs))
                (mk_iterator (Z.of_nat (length p)) k) Hl Hi) as [_ Hmore];
      cbn [byteindex rangeindex]; try lia.
    destruct Hmore as (r' & n & Hdec & _ & _ & ->); [cbn [byteindex]; lia|].
    cbn [byteindex rangeindex] in Hdec |- *.
    change (utf8String (r :: rs)) with (utf8 r ++ utf8String rs) in Hdec, Hl, Hi |- *.
    rewrite utf8_decodes_within in Hdec by auto. injection Hdec as <- <-.
    cbn [mbind option_bind].
    replace (Z.of_nat (length p) + Z.of_nat (length (utf8 r)))
      with (Z.of_nat (length (p ++ utf8 r))) by (rewrite length_app; lia).
    rewrite (app_assoc p (utf8 r)) in Hl, Hi |- *.
    rewrite IH; auto.
    + rewrite length_app. lia.
    + cbn in Hf. lia.
Qed.

(** X6: ranging over the UTF-8 encoding of a sequence of valid runes
    gives the runes back, in order, with the keys 1, 2, 3, ... *)
Theorem rangeString_utf8 (lenBits intBits : Z) (runes : list Z) :
  8 <= lenBits ->
  Forall (fun r => 0 <= r <= 0x10ffff) runes ->
  Z.of_nat (length (utf8String runes)) < 2 ^ lenBits ->
  Z.of_nat (length (utf8String runes)) < 2 ^ (intBits - 1) ->
  rangeString lenBits intBits (S (length (utf8String runes))) (utf8String runes)
              (mk_iterator 0 0)
  = Some (counted 1 runes).
Proof.
  intros Hw Hv Hl Hi.
  apply (rangeString_utf8_from lenBits intBits runes [] 0); auto.
  - cbn [length]. lia.
  - pose proof (utf8String_length runes Hv). lia.
Qed.

Lemma rangeString_utf8_witness :
  rangeString 32 32 7 (utf8String [0x61; 0xe9; 0x20ac]) (mk_iterator 0 0)
  = Some [(1, 0x61); (2, 0xe9); (3, 0x20ac)].
Proof.
  exact (rangeString_utf8 32 32 [0x61; 0xe9; 0x20ac] ltac:(lia)
           ltac:(repeat constructor; lia) ltac:(reflexivity) ltac:(reflexivity)).
Defined.

(** *** Conversions between strings and byte slices *)
Lemma memcpy_block (h : heap) dst src size (n : nat) :
  Z.of_nat n <= size ->
  map (fun i => bytes (memcpy h dst src size) (dst + Z.of_nat i)) (seq 0 n)
  = map (fun i => bytes h (src + Z.of_nat i)) (seq 0 n).
Proof.
  intros Hn. apply map_ext_in. intros i Hi%in_seq. cbn [memcpy bytes].
  destruct (Z.leb_spec dst (dst + Z.of_nat i)); [|lia].
  destruct (Z.ltb_spec (dst + Z.of_nat i) (dst + size)); [|lia].
  cbn [andb]. f_equal. lia.
Qed.

Lemma memcpy_outside (h : heap) dst src size a :
  a < dst -> bytes (memcpy h dst src size) a = bytes h a.
Proof.
  intros Ha. cbn [memcpy bytes]. destruct (Z.leb_spec dst a); [lia|]. reflexivity.
Qed.

(** X7: [stringFromBytes] copies: the string it returns sits in fresh
    storage at the old end of the heap, has the length and the bytes of
    the slice, and nothing that was allocated before is written to. *)
Theorem stringFromBytes_copies (lenBits ptrBits : Z) (h : heap) (x : _slice) :
  lenBits <= ptrBits -> 0 <= slen x < 2 ^ lenBits ->
  let r := stringFromBytes lenBits ptrBits h x in
  ptr r.1 = brk h /\
  length_ r.1 = slen x /\
  brk r.2 = brk h + slen x /\
  string_bytes r.2 r.1 = slice_bytes h x /\
  forall a, a < brk h -> bytes r.2 a = bytes h a.
Proof.
  intros Hbits Hlen r. subst r. unfold stringFromBytes.
  assert (Hpow : 2 ^ lenBits <= 2 ^ ptrBits).
  { destruct (Z.ltb_spec lenBits 0).
    - rewrite Z.pow_neg_r in Hlen by lia. lia.
    - apply Z.pow_le_mono_r; lia. }
  assert (E1 : uintptr ptrBits (slen x) = slen x) by (apply Z.mod_small; lia).
  assert (E2 : lenType lenBits (slen x) = slen x) by (apply Z.mod_small; lia).
  rewrite E1, E2. unfold alloc. cbn [fst snd ptr length_ brk memcpy].
  repeat split.
  - unfold string_bytes, slice_bytes. cbn [ptr length_].
    apply (memcpy_block (mk_heap (bytes h) (brk h + slen x)) (brk h) (sptr x) (slen x)). lia.
  - intros a Ha. apply (memcpy_outside (mk_heap (bytes h) (brk h + slen x))), Ha.
Qed.

Lemma stringFromBytes_copies_witness :
  string_bytes (stringFromBytes 32 32 countingHeap (mk_slice 8 3 8)).2
               (stringFromBytes 32 32 countingHeap (mk_slice 8 3 8)).1
  = [8; 9; 10].
Proof.
  exact (proj1 (proj2 (proj2 (proj2
           (stringFromBytes_copies 32 32 countingHeap (mk_slice 8 3 8)
              ltac:(lia) ltac:(cbn; lia)))))).
Defined.

(** X8: a byte slice turned into a string and back has the bytes it
    started with, in storage of its own, with capacity equal to its
    length. *)
Theorem bytes_string_roundtrip (lenBits ptrBits : Z) (h : heap) (x : _slice) :
  lenBits <= ptrBits -> 0 <= slen x < 2 ^ lenBits ->
  let s := stringFromBytes lenBits ptrBits h x in
  let b := stringToBytes ptrBits s.2 s.1 in
  slice_bytes b.2 b.1 = slice_bytes h x /\
  slen b.1 = slen x /\ scap b.1 = slen x /\
  sptr b.1 = brk h + slen x /\
  string_bytes b.2 s.1 = slice_bytes h x /\
  forall a, a < brk h -> bytes b.2 a = bytes h a.
Proof.
  intros Hbits Hlen s b.
  destruct (stringFromBytes_copies lenBits ptrBits h x Hbits Hlen)
    as (Hptr & Hl & Hbrk & Hbytes & Hframe).
  fold s in Hptr, Hl, Hbrk, Hbytes, Hframe.
  assert (Hpow : 2 ^ lenBits <= 2 ^ ptrBits).
  { destruct (Z.ltb_spec lenBits 0).
    - rewrite Z.pow_neg_r in Hlen by lia. lia.
    - apply Z.pow_le_mono_r; lia. }
  subst b. unfold stringToBytes. rewrite Hl.
  assert (E1 : uintptr ptrBits (slen x) = slen x) by (apply Z.mod_small; lia).
  rewrite E1. unfold alloc. cbn [fst snd sptr slen scap]. rewrite Hbrk, Hptr.
  assert (Hcopy : slice_bytes
            (memcpy (mk_heap (bytes s.2) (brk h + slen x + slen x))
                    (brk h + slen x) (brk h) (slen x))
            (mk_slice (brk h + slen x) (slen x) (slen x)) = slice_bytes h x).
  { rewrite <- Hbytes. unfold slice_bytes, string_bytes. cbn [sptr slen]. rewrite Hptr, Hl.
    apply (memcpy_block (mk_heap (bytes s.2) (brk h + slen x + slen x))
                        (brk h + slen x) (brk h) (slen x)). lia. }
  repeat split; auto.
  - rewrite <- Hbytes. unfold string_bytes. rewrite Hptr, Hl.
    apply map_ext_in. intros i Hi%in_seq.
    apply (memcpy_outside (mk_heap (bytes s.2) (brk h + slen x + slen x))). lia.
  - intros a Ha.
    rewrite (memcpy_outside (mk_heap (bytes s.2) (brk h + slen x + slen x))) by lia.
    apply Hframe, Ha.
Qed.

Lemma bytes_string_roundtrip_witness :
  slice_bytes
    (stringToBytes 32 (stringFromBytes 32 32 countingHeap (mk_slice 8 3 8)).2
                         (stringFromBytes 32 32 countingHeap (mk_slice 8 3 8)).1).2
    (stringToBytes 32 (stringFromBytes 32 32 countingHeap (mk_slice 8 3 8)).2
                         (stringFromBytes 32 32 countingHeap (mk_slice 8 3 8)).1).1
  = [8; 9; 10].
Proof.
  exact (proj1 (bytes_string_roundtrip 32 32 countingHeap (mk_slice 8 3 8)
                  ltac:(lia) ltac:(cbn; lia))).
Defined.

(** *** Alignment *)
Lemma align_eq (ptrBits p : Z) :
  0 <= p -> p + 3 < 2 ^ ptrBits -> align ptrBits p = (p + 3) - (p + 3) mod 4.
Proof.
  intros Hp Hfit. unfold align, uintptr. rewrite Z.mod_small by lia.
  change 3 with (Z.ones 2) at 2. rewrite Z.ldiff_ones_r by lia.
  rewrite Z.shiftl_mul_pow2, Z.shiftr_div_pow2 by lia. change (2 ^ 2) with 4. zdm.
Qed.

(** X9: [align] rounds an address up to the next multiple of four: the
    result is a multiple of 4, not below the address and less than 4
    above it, and aligning it again changes nothing; this as long as
    the addition of 3 stays inside the address space. *)
Theorem align_rounds_up (ptrBits p : Z) :
  0 <= p -> p + 3 < 2 ^ ptrBits ->
  align ptrBits p mod 4 = 0 /\ p <= align ptrBits p < p + 4 /\
  align ptrBits (align ptrBits p) = align ptrBits p.
Proof.
  intros Hp Hfit. pose proof (align_eq ptrBits p Hp Hfit) as Ha.
  assert (Hm : align ptrBits p mod 4 = 0) by (rewrite Ha; zdm).
  assert (Hr : p <= align ptrBits p < p + 4) by (rewrite Ha; zdm).
  split; [exact Hm|]. split; [exact Hr|].
  assert (Hbits : 2 <= ptrBits).
  { destruct (Z.ltb_spec ptrBits 2); [|lia].
    assert (2 ^ ptrBits <= 2 ^ 1).
    { destruct (Z.ltb_spec ptrBits 0); [rewrite Z.pow_neg_r by lia; lia|].
      apply Z.pow_le_mono_r; lia. }
    change (2 ^ 1) with 2 in *. lia. }
  assert (Hpow : 2 ^ ptrBits mod 4 = 0).
  { replace ptrBits with (2 + (ptrBits - 2)) by lia.
    rewrite Z.pow_add_r by lia. change (2 ^ 2) with 4.
    rewrite Z.mul_comm. apply Z.mod_mul. lia. }
  rewrite (align_eq ptrBits (align ptrBits p)); zdm.
Qed.

Lemma align_rounds_up_witness :
  align 32 13 mod 4 = 0 /\ 13 <= align 32 13 < 13 + 4 /\
  align 32 (align 32 13) = align 32 13.
Proof. exact (align_rounds_up 32 13 ltac:(lia) ltac:(lia)). Defined.

(** *** Code points outside Unicode *)
(** X10: a code point above U+10FFFF is encoded as the replacement
    character U+FFFD, and decodes as such. *)
Theorem encodeUTF8_replacement (w x : Z) :
  8 <= w -> 0x10ffff < x ->
  utf8 x = utf8 0xfffd /\ decodeUTF8 w (utf8 x) 0 = Some (0xfffd, 3).
Proof.
  intros Hw Hx.
  assert (E : utf8 x = utf8 0xfffd).
  { unfold utf8 at 1, encodeUTF8.
    destruct (Z.leb_spec x 0x7f); [lia|]. destruct (Z.leb_spec x 0x7ff); [lia|].
    destruct (Z.leb_spec x 0xffff); [lia|]. destruct (Z.leb_spec x 0x10ffff); [lia|].
    reflexivity. }
  split; [exact E|]. rewrite E.
  destruct (utf8_decodes w 0xfffd Hw ltac:(lia)) as (_ & _ & H). exact H.
Qed.

Lemma encodeUTF8_replacement_witness :
  utf8 0x110000 = utf8 0xfffd /\ decodeUTF8 32 (utf8 0x110000) 0 = Some (0xfffd, 3).
Proof. exact (encodeUTF8_replacement 32 0x110000 ltac:(lia) ltac:(lia)). Defined.

End RuntimeProofs.

(* ================================================================== *)
(** ** The compiler: theorems *)
(* ================================================================== *)

Module CompilerProofs.
Import llvm Compiler Spec RuntimeProofs.

Lemma b2z_nonzero b : negb (Z.b2z b =? 0) = b.
Proof. destruct b; reflexivity. Qed.

Lemma not_i1 b : negb (wrap 1 (Z.lnot (Z.b2z b)) =? 0) = negb b.
Proof. destruct b; reflexivity. Qed.

Lemma callRuntime_stringEqual (x y : list Z) :
  Machine.callRuntime "runtime.stringEqual" [Machine.RString x; Machine.RString y]
  = Machine.Done (Machine.RInt (Z.b2z (bool_decide (x = y)))).
Proof.
  unfold Machine.callRuntime.
  rewrite bool_decide_eq_true_2 by reflexivity.
  rewrite stringEqual_spec. reflexivity.
Qed.

Lemma callRuntime_stringLess (x y : list Z) :
  Machine.callRuntime "runtime.stringLess" [Machine.RString x; Machine.RString y]
  = Machine.Done (Machine.RInt (Z.b2z (Runtime.lex_lt x y))).
Proof.
  unfold Machine.callRuntime.
  rewrite bool_decide_eq_false_2 by discriminate.
  rewrite bool_decide_eq_true_2 by reflexivity.
  rewrite stringLess_spec. reflexivity.
Qed.

Ltac lowered :=
  match goal with
  | |- context [parseBinOp_string ?a ?b ?c ?d] =>
      let r := eval vm_compute in (parseBinOp_string a b c d) in
      change (parseBinOp_string a b c d) with r
  end.

Ltac run_binop :=
  unfold runStringBinOp; lowered; cbv beta iota;
  cbn -[Machine.callRuntime wrap];
  rewrite ?callRuntime_stringEqual, ?callRuntime_stringLess;
  cbn -[wrap];
  rewrite ?lookup_total_insert_eq;
  cbn -[wrap];
  rewrite ?lookup_total_insert_eq;
  rewrite ?b2z_nonzero, ?not_i1; try reflexivity.

Lemma runStringBinOp_spec (x y : list Z) :
  runStringBinOp token.EQL x y = Some (bool_decide (x = y)) /\
  runStringBinOp token.NEQ x y = Some (negb (bool_decide (x = y))) /\
  runStringBinOp token.LSS x y = Some (Runtime.lex_lt x y) /\
  runStringBinOp token.LEQ x y = Some (negb (Runtime.lex_lt y x)) /\
  runStringBinOp token.GTR x y = Some (negb (Runtime.lex_lt x y)) /\
  runStringBinOp token.GEQ x y = Some (Runtime.lex_lt y x).
Proof.
  repeat split.
  all: run_binop.
Qed.

Lemma type_error_bind {A B} (r : result A) (f : A -> result B) :
  type_error r -> (forall a, type_error (f a)) -> type_error (r ≫= f).
Proof. destruct r as [a|e|m]; cbn; auto. Qed.

Lemma getLLVMType_all_eq c m ts :
  (fix all (ts : list types.Type_) : result (list Type_) :=
    match ts with
    | [] => Ok []
    | t :: ts' =>
        match getLLVMType c m t with
        | Ok x => match all ts' with Ok xs => Ok (x :: xs) | Err e => Err e | Crash e => Crash e end
        | Err e => Err e
        | Crash e => Crash e
        end
    end) ts = forM (getLLVMType c m) ts.
Proof.
  induction ts as [|t ts IH]; [reflexivity|].
  cbn [forM]. rewrite IH. destruct (getLLVMType c m t); cbn; try reflexivity.
Qed.

Lemma forM_type_error {A B} (f : A -> result B) xs :
  Forall (fun x => type_error (f x)) xs -> type_error (forM f xs).
Proof.
  induction 1 as [|x xs Hx _ IH]; cbn; [exact I|].
  apply type_error_bind; [exact Hx|]. intros a.
  apply type_error_bind; [exact IH|]. intros; exact I.
Qed.

Lemma getLLVMType_type_error c m t : type_error (getLLVMType c m t).
Proof.
  induction t as [e n IH|k|e IH| |k e IHk IHe|p n u IH|e IH|r ps rs Hr Hps Hrs|e IH|fs H|es H]
    using Type_induction; cbn [getLLVMType]; rewrite ?getLLVMType_all_eq.
  - apply type_error_bind; auto. intros; exact I.
  - destruct k; exact I.
  - exact I.
  - exact I.
  - exact I.
  - destruct u; auto. destruct (GetTypeByName _ _); exact I.
  - apply type_error_bind; auto. intros; exact I.
  - apply type_error_bind.
    { destruct rs as [|r1 [|r2 rs]]; [exact I| |].
      - inversion_clear Hrs; auto.
      - apply type_error_bind; [apply forM_type_error; auto|]. intros; exact I. }
    intros a. apply type_error_bind.
    { destruct r as [t|]; [|exact I]. apply type_error_bind; [eauto|]. intros; exact I. }
    intros b. apply type_error_bind; [apply forM_type_error; auto|].
    intros d. destruct (SignatureNeedsContext _ _); exact I.
  - apply type_error_bind; auto. intros; exact I.
  - apply type_error_bind; [apply forM_type_error; auto|]. intros; exact I.
  - exact I.
Qed.

Lemma forM_ext {A B} (f g : A -> result B) xs :
  Forall (fun x => f x = g x) xs -> forM f xs = forM g xs.
Proof.
  induction 1 as [|x xs Hx _ IH]; cbn; [reflexivity|]. rewrite Hx, IH. reflexivity.
Qed.

(** Type lowering reads the module's named types and nothing else. *)
Lemma getLLVMType_namedTypes c m m' t :
  namedTypes m = namedTypes m' -> getLLVMType c m t = getLLVMType c m' t.
Proof.
  intros Hm.
  induction t as [e n IH|k|e IH| |k e IHk IHe|p n u IH|e IH|r ps rs Hr Hps Hrs|e IH|fs H|es H]
    using Type_induction; cbn [getLLVMType]; rewrite ?getLLVMType_all_eq;
    unfold GetTypeByName; rewrite <- ?Hm, ?IH.
  - reflexivity.
  - reflexivity.
  - reflexivity.
  - reflexivity.
  - reflexivity.
  - destruct u; rewrite <- ?Hm; auto.
  - reflexivity.
  - rewrite (forM_ext _ _ _ Hps), (forM_ext _ _ _ Hrs).
    destruct rs as [|r1 [|r2 rs]]; [| inversion_clear Hrs as [|? ? E1 E2]; rewrite E1 |].
    all: destruct r as [t|]; [rewrite (Hr t eq_refl)|]; reflexivity.
  - reflexivity.
  - rewrite (forM_ext _ _ _ H). reflexivity.
  - reflexivity.
Qed.

(** C7: the body of mainWrapper.  When the program needs the scheduler
    it calls main.main with a null parent task, passes the handle that
    call returns to runtime.scheduler and returns void; otherwise it
    calls main.main with no arguments and returns void. *)
Theorem emitMainWrapper_body (c : Compiler) (mainWrapper : ir.Function) (s : State) :
  ir.Params mainWrapper = [] ->
  let realMain := NamedFunction (mod_ s) (MainPkgPath c +:+ ".main") in
  let scheduler := NamedFunction (mod_ s) "runtime.scheduler" in
  let n := nextId s in
  exists s',
    emitMainWrapper c mainWrapper s = (Ok tt, s') /\
    mod_ s' = mod_ s /\
    code s' =
      if NeedsScheduler c then
        [(n, ICall realMain [ConstPointerNull i8ptrType]);
         (S n, ICall scheduler [Inst n (returnType (elementType (typeOf realMain)))]);
         (S (S n), IRetVoid)]
      else
        [(n, ICall realMain []); (S n, IRetVoid)].
Proof.
  intros Hp. unfold emitMainWrapper, attachDebugInfoRaw. rewrite Hp.
  destruct s as [m cd n0 d1 d2 d3]. cbn.
  destruct (Debug c), (NeedsScheduler c); cbn; eexists; repeat split.
Qed.

Lemma forM_getLLVMType_namedTypes c m m' ts :
  namedTypes m = namedTypes m' ->
  forM (getLLVMType c m) ts = forM (getLLVMType c m') ts.
Proof.
  intros Hm. apply forM_ext, Forall_forall. intros t _.
  apply getLLVMType_namedTypes, Hm.
Qed.

Lemma forM_getLLVMType_frame c m fs gs ts :
  forM (getLLVMType c (mkModule (namedTypes m) fs gs)) ts = forM (getLLVMType c m) ts.
Proof. apply forM_getLLVMType_namedTypes. reflexivity. Qed.

Ltac mrun :=
  cbv [mbind M_bind mret M_ret getModule setModule lift fail crash try
       AddFunction attachDebugInfoRaw enterNewBlock emit]; cbn.

Lemma forM_fmap_ok {A B C} (f : A -> result B) (g : B -> C) xs ys :
  forM (fun x => y ← f x; Ok (g y)) xs = Ok ys -> exists zs, forM f xs = Ok zs.
Proof.
  revert ys. induction xs as [|x xs IH]; intros ys; cbn; [eauto|].
  destruct (f x) as [y|e|m]; cbn; try discriminate.
  destruct (forM (fun x => y ← f x; Ok (g y)) xs) as [ys'|e|m] eqn:E; cbn; try discriminate.
  destruct (IH _ eq_refl) as [zs ->]. cbn. eauto.
Qed.

Lemma forM_type_error' {A B} (f : A -> result B) xs :
  (forall x, type_error (f x)) -> type_error (forM f xs).
Proof. intros H. apply forM_type_error. apply Forall_forall. auto. Qed.

(** C3 (amended): for a blocking function, any result makes the
    declaration fail with UnsupportedBlockingReturn.  With no results it
    never fails with that error, and whenever its parameter types lower
    and its name is not declared yet, the function is declared with a
    byte-pointer return type (the task handle) and a leading byte-pointer
    parameter (the parent task), followed by the parameter fragments and,
    if the function needs one, the context pointer. *)
Theorem parseFuncDecl_blocking (c : Compiler) (f : ir.Function) (s : State) :
  ir.IsBlocking f = true ->
  (ir.Results f <> [] -> (parseFuncDecl c f s).1 = Err UnsupportedBlockingReturn) /\
  (ir.Results f = [] ->
   (parseFuncDecl c f s).1 <> Err UnsupportedBlockingReturn /\
   forall fragments,
     forM (lowerParam c (mod_ s)) (ir.Params f) = Ok fragments ->
     NamedFunction (mod_ s) (ir.LinkName f) = NilValue ->
     let fnType :=
       FunctionType i8ptrType
         (i8ptrType :: concat fragments
                    ++ (if ir.NeedsContext f then [i8ptrType] else [])) in
     exists frame s',
       parseFuncDecl c f s = (Ok frame, s') /\
       blocking frame = true /\
       LLVMFn frame = Function (ir.LinkName f) fnType /\
       functions (mod_ s') = functions (mod_ s) ++ [(ir.LinkName f, fnType)]).
Proof.
  intros Hb. unfold parseFuncDecl. rewrite Hb.
  destruct s as [m cd n0 d1 d2 d3]. cbn [mod_].
  split.
  - intros Hr. destruct (ir.Results f); [congruence|]. reflexivity.
  - intros Hr. rewrite Hr. split.
    + pose proof (forM_type_error' (lowerParam c m) (ir.Params f)) as Ht.
      mrun.
      destruct (forM (lowerParam c m) (ir.Params f)) as [fr|e|msg] eqn:E; cbn.
      * destruct (forM_fmap_ok _ _ _ _ E) as [zs Hz].
        destruct (NamedFunction m (ir.LinkName f)); mrun;
          repeat match goal with
                 | |- context [if ?b then _ else _] => destruct b; mrun
                 end;
          rewrite ?forM_getLLVMType_frame, ?Hz; mrun; discriminate.
      * intros [= ->]. apply Ht. intros x. unfold lowerParam.
        apply type_error_bind; [apply getLLVMType_type_error|]. intros; exact I.
      * discriminate.
    + intros fragments Hf Hn. mrun. rewrite Hf. mrun.
      rewrite Hn.
      destruct (forM_fmap_ok _ _ _ _ Hf) as [zs Hz].
      destruct (ir.NeedsContext f); mrun;
        repeat match goal with
               | |- context [if ?b then _ else _] => destruct b; mrun
               end;
        rewrite ?forM_getLLVMType_frame, ?Hz; mrun; rewrite ?app_nil_r;
        eexists _, _; repeat split.
Qed.

Ltac mrun' :=
  cbv [mbind M_bind mret M_ret getModule setModule lift fail crash try
       AddFunction attachDebugInfoRaw enterNewBlock emit createRuntimeCall
       CreateCall CreateZExt CreateSExt CreateTrunc CreateNot CreateBitCast CreateLoad CreateStore
       CreateAlloca CreateInsertValue CreateExtractValue CreateGEP CreateSub CreateRetVoid]; cbn.

(** C2: what [emitBoundsCheck] emits for an 8-bit index against a 32-bit
    length.  An index of the signed type int8 is zero-extended and one of
    the unsigned type uint8 is sign-extended: the opposite of what the
    claim asks for.  On the machine, the byte 0xff reaches the check as
    255 after the zero extension emitted for int8 (where it stands for
    -1) and as 2^32-1 after the sign extension emitted for uint8 (where
    it stands for 255). *)
Theorem emitBoundsCheck_extension_inverted (c : Compiler) (s : State) :
  let arrayLen := Param 0 (IntType 32) in
  let index := Param 1 (IntType 8) in
  let check := NamedFunction (mod_ s) "runtime.lookupBoundsCheck" in
  let n := nextId s in
  (exists s',
     emitBoundsCheck c checkedFrame arrayLen index (types.Basic types.Int8) s = (Ok tt, s') /\
     code s' = code s ++ [(n, IZExt index (IntType 32));
                          (S n, ICall check [arrayLen; Inst n (IntType 32)])]) /\
  (exists s',
     emitBoundsCheck c checkedFrame arrayLen index (types.Basic types.Uint8) s = (Ok tt, s') /\
     code s' = code s ++ [(n, ISExt index (IntType 32));
                          (S n, ICall check [arrayLen; Inst n (IntType 32)])]) /\
  (forall sizeOf st len,
     Machine.args st = [Machine.RInt len; Machine.RInt 255] ->
     Machine.step sizeOf st (n, IZExt index (IntType 32))
     = Machine.Done (Machine.setReg st n (Machine.RInt 255)) /\
     Machine.step sizeOf st (n, ISExt index (IntType 32))
     = Machine.Done (Machine.setReg st n (Machine.RInt (2 ^ 32 - 1)))).
Proof.
  destruct s as [m cd n0 d1 d2 d3]. cbn zeta. cbn [mod_ nextId code].
  split; [|split].
  - unfold emitBoundsCheck. mrun'. rewrite <- app_assoc. eexists; split; reflexivity.
  - unfold emitBoundsCheck. mrun'. rewrite <- app_assoc. eexists; split; reflexivity.
  - intros sizeOf st len Ha. cbn. rewrite Ha. cbn. split; reflexivity.
Qed.


Lemma parseConst_intZero c prefix s :
  parseConst c prefix intZero s = (Ok (ConstInt (IntType 32) 0), s).
Proof. destruct s. reflexivity. Qed.

Lemma callRuntime_sliceBoundsCheck capacity low high :
  Machine.callRuntime "runtime.sliceBoundsCheck"
    [Machine.RInt capacity; Machine.RInt low; Machine.RInt high]
  = match Machine.sliceBoundsCheck capacity low high with
    | Returns _ => Machine.Done Machine.RUndef
    | Panics msg => Machine.Panic msg
    end.
Proof.
  unfold Machine.callRuntime.
  rewrite !bool_decide_eq_false_2 by discriminate.
  rewrite bool_decide_eq_true_2 by reflexivity. reflexivity.
Qed.

Lemma signed_0 w : 0 < w -> signed w 0 = 0.
Proof.
  intros Hw. unfold signed, wrap. rewrite Z.mod_0_l by (apply Z.pow_nonzero; lia).
  assert (0 < 2 ^ (w - 1)) by (apply Z.pow_pos_nonneg; lia).
  destruct (Z.ltb_spec 0 (2 ^ (w - 1))); [reflexivity | lia].
Qed.

Lemma wrap_0 w : wrap w 0 = 0.
Proof. unfold wrap. apply Zmod_0_l. Qed.

Lemma args_lookup st i r :
  Machine.args st !! i = Some r -> Machine.args st !!! i = r.
Proof. intros H. apply list_lookup_total_correct, H. Qed.

Ltac regs :=
  repeat first
    [ rewrite lookup_total_insert_eq
    | rewrite lookup_total_insert_ne by lia ].

(** C6: [s[0:0]] of a nil slice.  The lowering succeeds; the emitted
    code, with its call of the slice bounds check on capacity 0, low 0
    and high 0, runs to the end without a panic; and the value it
    produces is the slice with a null pointer, length 0 and capacity 0. *)
Theorem slice_of_nil_slice (c : Compiler) (frame : Frame) (s : State)
    (prefix : string) (elem : types.Type_) (elemType checkType : Type_)
    (i : nat) (sizeOf : Type_ -> Z) (st : Machine.state) :
  0 < PointerSize c ->
  NamedFunction (mod_ s) "runtime.sliceBoundsCheck"
    = Function "runtime.sliceBoundsCheck" checkType ->
  Machine.args st !! i = Some nilSlice ->
  let sliceType := StructType [PointerType elemType; lenType c; lenType c] in
  exists v s' emitted st',
    parseExpr_Slice c frame false (types.Slice elem)
      (mret (Param i sliceType))
      (Some (parseConst c prefix intZero)) (Some (parseConst c prefix intZero)) s
    = (Ok v, s') /\
    code s' = code s ++ emitted /\
    Machine.exec sizeOf st emitted = Machine.Done st' /\
    Machine.eval st' v = nilSlice.
Proof.
  intros Hp Hcheck Harg sliceType. apply args_lookup in Harg.
  assert (Hw : 0 < IntTypeWidth (lenType c)).
  { unfold lenType, uintptrType. destruct (PointerSize c <? 4); cbn; lia. }
  unfold parseExpr_Slice.
  destruct s as [m cd n d1 d2 d3]. cbn [mod_] in Hcheck.
  mrun'. rewrite !parseConst_intZero. mrun'.
  unfold emitSliceBoundsCheck.
  destruct (ir.IsNoBounds (fn frame)); mrun';
    change ("runtime." +:+ "sliceBoundsCheck") with "runtime.sliceBoundsCheck";
    rewrite ?Hcheck; mrun';
    destruct (TypeAllocSize c (IntType 32) >? TypeAllocSize c (lenType c)); mrun';
    rewrite <- !app_assoc; cbn [app];
    (eexists _, _, _, _; split; [reflexivity|]; split; [reflexivity|]);
    repeat (progress (cbn -[wrap signed Machine.callRuntime];
                      rewrite ?Harg, ?callRuntime_sliceBoundsCheck, ?wrap_0, ?Z.sub_0_r,
                        ?signed_0 by (assumption || lia);
                      regs)).
  all: split; [reflexivity|]; cbn; regs; rewrite ?Z.mul_0_l; reflexivity.
Qed.









Lemma overwrite_length rs : forall i fields, length (overwrite i rs fields) = length fields.
Proof.
  induction rs as [|r rs IH]; intros i fields; cbn; [reflexivity|].
  rewrite IH, length_insert. reflexivity.
Qed.




















































Lemma SetInitializer_run id T v s :
  SetInitializer (Global id T) v s
  = (Ok tt, withGlobals s (alter (setInit v) id (globals (mod_ s)))).
Proof. reflexivity. Qed.

Lemma SetLinkageInternal_run id T s :
  SetLinkageInternal (Global id T) s
  = (Ok tt, withGlobals s (alter setInternal id (globals (mod_ s)))).
Proof. reflexivity. Qed.

Lemma AddGlobal_run t name s :
  AddGlobal t name s
  = (Ok (Global (length (globals (mod_ s))) (PointerType t)),
     withGlobals s (globals (mod_ s) ++ [mkGlobal name t None false])).
Proof. reflexivity. Qed.

Lemma alter_new {A} (f : A -> A) (l : list A) x :
  alter f (length l) (l ++ [x]) = l ++ [f x].
Proof.
  induction l as [|y l IH]; [reflexivity|]. cbn. f_equal. exact IH.
Qed.


Lemma lookup_alter_other {A} (f : A -> A) (l : list A) id j :
  id <> j -> alter f id l !! j = l !! j.
Proof. intros H. apply list_lookup_alter_ne, H. Qed.


(** *** Materialisation only extends the module *)
Lemma extends_refl s : extends s s.
Proof. split; reflexivity. Qed.

Lemma extends_trans s1 s2 s3 : extends s1 s2 -> extends s2 s3 -> extends s1 s3.
Proof.
  intros [H1 P1] [H2 P2]. split; [congruence|]. etransitivity; eassumption.
Qed.







Lemma bucketRows_last g T b cur row :
  bucketRows g T b cur [row]
  <-> b = cur /\ bucketHolds g b row (ConstPointerNull i8ptrType).
Proof. reflexivity. Qed.



































(** C1: the lowering of the six string comparisons, run on the machine.
    [==], [!=], [<] and [<=] give Go's answer.  [x > y] is lowered to the
    negation of [stringLess(x, y)] and [x >= y] to [stringLess(y, x)]:
    the two are the wrong way round, so on the equal strings "a" and "a"
    the lowered [>] answers true and the lowered [>=] answers false. *)
Theorem string_compare_lowering :
  (forall x y : list Z,
     runStringBinOp token.EQL x y = Some (bool_decide (x = y)) /\
     runStringBinOp token.NEQ x y = Some (negb (bool_decide (x = y))) /\
     runStringBinOp token.LSS x y = Some (Runtime.lex_lt x y) /\
     runStringBinOp token.LEQ x y = Some (negb (Runtime.lex_lt y x)) /\
     runStringBinOp token.GTR x y = Some (negb (Runtime.lex_lt x y)) /\
     runStringBinOp token.GEQ x y = Some (Runtime.lex_lt y x)) /\
  Runtime.lex_lt [97] [97] = false /\
  runStringBinOp token.GTR [97] [97] = Some true /\
  runStringBinOp token.GEQ [97] [97] = Some false.
Proof.
  split; [exact runStringBinOp_spec|].
  destruct (runStringBinOp_spec [97] [97]) as (_ & _ & _ & _ & Hg & He).
  split; [reflexivity|]. split; [exact Hg|exact He].
Qed.

(** [func sleeper(n int)] is declared as [i8* (i8*, i32)]. *)
Lemma parseFuncDecl_blocking_witness :
  exists frame s',
    parseFuncDecl cortexM sleeper (emptyState runtimeModule) = (Ok frame, s') /\
    LLVMFn frame
    = Function "main.sleeper" (FunctionType i8ptrType [i8ptrType; IntType 32]).
Proof.
  destruct (parseFuncDecl_blocking cortexM sleeper (emptyState runtimeModule) eq_refl)
    as [_ H].
  destruct (H eq_refl) as [_ H2].
  destruct (H2 [[IntType 32]] eq_refl eq_refl) as (frame & s' & E & _ & L & _).
  exists frame, s'. split; [exact E|exact L].
Defined.

(** C3 as stated fails: a suspending function with no results still
    fails when one of its parameter types cannot be lowered. *)
Lemma parseFuncDecl_blocking_void_fails :
  ir.IsBlocking sleeperOnMissingType = true /\
  ir.Results sleeperOnMissingType = [] /\
  (parseFuncDecl cortexM sleeperOnMissingType (emptyState runtimeModule)).1
  = Err (UnsupportedType "type not found").
Proof. repeat split; vm_compute; reflexivity. Qed.

(** The wrapper of a program with goroutines, on a module that declares
    main.main and the scheduler. *)
Lemma emitMainWrapper_body_witness :
  (exists s',
     emitMainWrapper cortexM_scheduler mainWrapperFn (emptyState programModule) = (Ok tt, s') /\
     code s' =
       [(0%nat, ICall (Function "main.main" (FunctionType i8ptrType [i8ptrType]))
                      [ConstPointerNull i8ptrType]);
        (1%nat, ICall (Function "runtime.scheduler" (FunctionType VoidType [i8ptrType]))
                      [Inst 0 i8ptrType]);
        (2%nat, IRetVoid)]).
Proof.
  destruct (emitMainWrapper_body cortexM_scheduler mainWrapperFn (emptyState programModule) eq_refl)
    as (s' & E & _ & Hc).
  exists s'. split; [exact E|exact Hc].
Defined.

(** A nil [[]int] passed as the first parameter, on the 32-bit target. *)
Lemma slice_of_nil_slice_witness :
  exists v s' emitted st',
    parseExpr_Slice cortexM checkedFrame false (types.Slice (types.Basic types.Int))
      (mret (Param 0 (StructType [PointerType (IntType 32); IntType 32; IntType 32])))
      (Some (parseConst cortexM "main.f" intZero)) (Some (parseConst cortexM "main.f" intZero))
      (emptyState runtimeModule)
    = (Ok v, s') /\
    code s' = emitted /\
    Machine.exec allocSize32 (machineStart [nilSlice]) emitted = Machine.Done st' /\
    Machine.eval st' v = nilSlice.
Proof.
  exact (slice_of_nil_slice cortexM checkedFrame (emptyState runtimeModule) "main.f"
           (types.Basic types.Int) (IntType 32)
           (FunctionType VoidType [IntType 32; IntType 32; IntType 32])
           0%nat allocSize32 (machineStart [nilSlice])
           ltac:(reflexivity) eq_refl eq_refl).
Defined.



(** *** Zero values have the type they were asked for *)
Lemma forM_typed (f : Type_ -> result Value) ts : forall vals,
  Forall (fun t => forall z, f t = Ok z -> typeOf z = t) ts ->
  forM f ts = Ok vals -> map typeOf vals = ts.
Proof.
  induction ts as [|t ts IH]; intros vals Hall; cbn [forM].
  - intros [= <-]. reflexivity.
  - inversion_clear Hall as [|? ? Ht Hts].
    destruct (f t) as [z| |] eqn:Ez; try discriminate. cbn [mbind result_bind].
    destruct (forM f ts) as [zs| |] eqn:Ezs; try discriminate. cbn [mbind result_bind].
    intros [= <-]. cbn [map]. f_equal; auto.
Qed.

Lemma getZeroValue_typed m fuel : forall t z,
  noEmptyVector t = true -> getZeroValue m fuel t = Ok z -> typeOf z = t.
Proof.
  induction fuel as [|fuel IH]; intros t z Hwf; [discriminate|].
  cbn [getZeroValue]. destruct t; try discriminate; cbn [noEmptyVector] in Hwf.
  - intros [= <-]. reflexivity.
  - intros [= <-]. reflexivity.
  - intros [= <-]. reflexivity.
  - intros [= <-]. reflexivity.
  - destruct (getZeroValue m fuel t) as [v| |]; try discriminate. cbn [mbind result_bind].
    intros [= <-]. cbn [typeOf]. rewrite length_replicate. reflexivity.
  - apply andb_true_iff in Hwf. destruct Hwf as [Hn Hwf].
    destruct (getZeroValue m fuel t) as [v| |] eqn:E; try discriminate. cbn [mbind result_bind].
    intros [= <-]. cbn [typeOf]. rewrite length_replicate.
    destruct n as [|n]; [discriminate|]. cbn [replicate]. f_equal. eapply IH; eassumption.
  - destruct (forM (getZeroValue m fuel) elems) as [vals| |] eqn:E; try discriminate.
    cbn [mbind result_bind]. intros [= <-]. cbn [typeOf]. f_equal.
    eapply forM_typed; [|exact E].
    apply Forall_forall. intros t Ht z Hz. apply IH; [|exact Hz].
    rewrite forallb_forall in Hwf. apply Hwf. apply list_elem_of_In, Ht.
  - destruct (forM (getZeroValue m fuel) _) as [vals| |]; try discriminate.
    cbn [mbind result_bind]. intros [= <-]. reflexivity.
Qed.

Lemma forM_noEmptyVector c m ts : forall lts,
  Forall (fun t => forall lt, getLLVMType c m t = Ok lt -> noEmptyVector lt = true) ts ->
  forM (getLLVMType c m) ts = Ok lts -> forallb noEmptyVector lts = true.
Proof.
  induction ts as [|t ts IH]; intros lts Hall; cbn [forM].
  - intros [= <-]. reflexivity.
  - inversion_clear Hall as [|? ? Ht Hts].
    destruct (getLLVMType c m t) as [lt| |] eqn:E; try discriminate. cbn [mbind result_bind].
    destruct (forM (getLLVMType c m) ts) as [ls| |] eqn:Els; try discriminate.
    cbn [mbind result_bind]. intros [= <-]. cbn [forallb].
    rewrite (Ht _ eq_refl), (IH _ Hts eq_refl). reflexivity.
Qed.

Lemma lenType_noEmptyVector c : noEmptyVector (lenType c) = true.
Proof. unfold lenType, uintptrType. destruct (PointerSize c <? 4); reflexivity. Qed.

Lemma GetTypeByName_noEmptyVector m name : noEmptyVector (GetTypeByName m name) = true.
Proof. unfold GetTypeByName. destruct (namedTypes m !! name); reflexivity. Qed.

(** Lowered Go types are well formed. *)
Lemma getLLVMType_noEmptyVector c m t : forall lt,
  getLLVMType c m t = Ok lt -> noEmptyVector lt = true.
Proof.
  induction t as [e n IH|k|e IH| |k e IHk IHe|p n u IH|e IH|r ps rs Hr Hps Hrs|e IH|fs H|es H]
    using Type_induction; intros lt; cbn [getLLVMType]; rewrite ?getLLVMType_all_eq.
  - destruct (getLLVMType c m e) as [le| |]; try discriminate. cbn [mbind result_bind].
    intros [= <-]. cbn. auto.
  - destruct k; try discriminate; intros [= <-]; try reflexivity;
      apply GetTypeByName_noEmptyVector.
  - intros [= <-]. reflexivity.
  - intros [= <-]. apply GetTypeByName_noEmptyVector.
  - intros [= <-]. reflexivity.
  - destruct u; auto.
    pose proof (GetTypeByName_noEmptyVector m (p +:+ "." +:+ n)) as Hwf.
    destruct (GetTypeByName m _); try discriminate; intros [= <-]; exact Hwf.
  - destruct (getLLVMType c m e) as [le| |]; try discriminate. cbn [mbind result_bind].
    intros [= <-]. reflexivity.
  - destruct (match rs with [] => _ | _ => _ end) as [rt| |]; try discriminate.
    cbn [mbind result_bind].
    destruct (match r with Some _ => _ | None => _ end) as [rts| |]; try discriminate.
    cbn [mbind result_bind].
    destruct (forM (getLLVMType c m) ps) as [sub| |]; try discriminate.
    cbn [mbind result_bind].
    destruct (SignatureNeedsContext c _); intros [= <-]; reflexivity.
  - destruct (getLLVMType c m e) as [le| |]; try discriminate. cbn [mbind result_bind].
    intros [= <-]. cbn. rewrite lenType_noEmptyVector. reflexivity.
  - destruct (forM (getLLVMType c m) fs) as [members| |] eqn:E; try discriminate.
    cbn [mbind result_bind]. intros [= <-]. cbn [noEmptyVector].
    eapply forM_noEmptyVector; [|exact E]. exact H.
  - discriminate.
Qed.

Lemma zero_value_typed_aux c m fuel goType t z :
  getLLVMType c m goType = Ok t -> getZeroValue m fuel t = Ok z -> typeOf z = t.
Proof.
  intros Ht Hz. eapply getZeroValue_typed; [|exact Hz].
  eapply getLLVMType_noEmptyVector, Ht.
Qed.

(** X11: the zero initializer of a lowered Go type has that type. *)
Theorem zero_value_typed (c : Compiler) (m : Module) (fuel : nat)
    (goType : types.Type_) (t : Type_) (z : Value) :
  getLLVMType c m goType = Ok t -> getZeroValue m fuel t = Ok z -> typeOf z = t.
Proof. apply zero_value_typed_aux. Qed.

Lemma zero_value_typed_witness :
  typeOf (ConstStruct [ConstPointerNull (PointerType (VectorType DoubleType 2));
                       constInt (IntType 32) 0; constInt (IntType 32) 0])
  = StructType [PointerType (VectorType DoubleType 2); IntType 32; IntType 32].
Proof.
  exact (zero_value_typed cortexM runtimeModule 3
           (types.Slice (types.Basic types.Complex128)) _ _ eq_refl eq_refl).
Defined.

(** *** Constants *)
Lemma getLLVMType_Underlying c m t :
  (forall fs, types.Underlying t <> types.Struct fs) ->
  getLLVMType c m t = getLLVMType c m (types.Underlying t).
Proof.
  destruct t as [| | | | |p n u| | | | |]; try reflexivity.
  intros H. cbn [types.Underlying] in *. cbn [getLLVMType].
  destruct u; try reflexivity. exfalso. eapply H. reflexivity.
Qed.

Ltac const_done :=
  cbv [mbind M_bind mret M_ret getModule lift fail crash];
  cbn [BoolVal StringVal Uint64Val Int64Val Float64Val];
  try discriminate;
  intros [= <- <-]; repeat split; try reflexivity; try apply extends_refl.

(** X12: a constant that materialises has the LLVM type its Go type
    lowers to; materialising it emits no instruction and only adds
    globals to the module. *)
Theorem parseConst_typed (c : Compiler) (prefix : string) (e : ir.Const)
    (s s' : State) (v : Value) :
  parseConst c prefix e s = (Ok v, s') ->
  getLLVMType c (mod_ s) (types.Underlying (ir.ctype e)) = Ok (typeOf v) /\
  code s' = code s /\ nextId s' = nextId s /\ extends s s'.
Proof.
  unfold parseConst.
  destruct (types.Underlying (ir.ctype e)) as [| k | | |key elem| |elem|recv ps rs|elem| |] eqn:Eu.
  - const_done.
  - (* basic types *)
    cbv [mbind M_bind getModule lift]. cbn [mod_].
    destruct (getLLVMType c (mod_ s) (types.Basic k)) as [llvmType| |] eqn:Ek; try discriminate.
    destruct (types.IsBoolean k) eqn:Eb.
    { destruct (ir.cvalue e); const_done. }
    destruct (types.IsString k) eqn:Es.
    { destruct (ir.cvalue e) as [| |str| | |]; cbn [StringVal]; try discriminate.
      rewrite AddGlobal_run, SetInitializer_run. cbn [mod_ withGlobals globals].
      rewrite SetLinkageInternal_run. cbn [mod_ withGlobals globals namedTypes functions].
      rewrite !alter_new. cbv [mret M_ret]. intros [= <- <-].
      split; [|repeat split; try reflexivity; cbn; apply prefix_app_r; reflexivity].
      cbn [typeOf]. destruct k; try discriminate; cbn in Ek; congruence. }
    destruct (bool_decide (k = types.UnsafePointer)) eqn:Ep.
    { apply bool_decide_eq_true in Ep. subst k. cbn in Ek. injection Ek as <-.
      destruct (ir.cvalue e); const_done. }
    destruct (types.IsUnsigned k) eqn:Eun.
    { destruct (ir.cvalue e); const_done. }
    destruct (types.IsInteger k) eqn:Ei.
    { destruct (ir.cvalue e); const_done. }
    destruct (types.IsFloat k) eqn:Ef.
    { destruct (ir.cvalue e); const_done. }
    destruct (bool_decide (k = types.Complex128)) eqn:Ec.
    { apply bool_decide_eq_true in Ec. subst k. cbn in Ek. injection Ek as <-.
      destruct (ir.cvalue e); const_done. }
    const_done.
  - const_done.
  - (* interfaces *)
    destruct (IsNilConst (ir.cvalue e)); const_done.
  - (* maps *)
    destruct (IsNilConst (ir.cvalue e)); cbn [negb]; [|const_done].
    cbv [mbind M_bind getModule lift]. cbn [getLLVMType].
    destruct (getZeroValue _ _ _) as [z| |] eqn:Ez; try discriminate.
    intros [= <- <-]. repeat split; try reflexivity; try apply extends_refl.
    f_equal. symmetry. eapply getZeroValue_typed; [|exact Ez]. reflexivity.
  - const_done.
  - (* pointers *)
    destruct (IsNilConst (ir.cvalue e)); cbn [negb]; [|const_done].
    cbv [mbind M_bind getModule lift].
    destruct (getLLVMType c (mod_ s) (types.Pointer elem)) as [lt| |]; try discriminate.
    cbv [mret M_ret]. intros [= <- <-]. repeat split; try reflexivity; apply extends_refl.
  - (* signatures *)
    destruct (IsNilConst (ir.cvalue e)); cbn [negb]; [|const_done].
    cbv [mbind M_bind getModule lift].
    rewrite getLLVMType_Underlying by (rewrite Eu; discriminate). rewrite Eu.
    destruct (getLLVMType c (mod_ s) (types.Signature recv ps rs)) as [sig| |] eqn:Esig;
      try discriminate.
    destruct (getZeroValue _ _ _) as [z| |] eqn:Ez; try discriminate.
    intros [= <- <-]. repeat split; try reflexivity; try apply extends_refl.
    f_equal. symmetry. eapply zero_value_typed_aux; eassumption.
  - (* slices *)
    destruct (IsNilConst (ir.cvalue e)); cbn [negb]; [|const_done].
    cbv [mbind M_bind getModule lift]. cbn [getLLVMType].
    destruct (getLLVMType c (mod_ s) elem) as [lt| |]; try discriminate.
    cbv [mret M_ret]. cbn [mbind result_bind]. intros [= <- <-].
    repeat split; try reflexivity; apply extends_refl.
  - const_done.
  - const_done.
Qed.

Lemma parseConst_typed_witness :
  exists v s',
    parseConst cortexM "main.greeting"
      (ir.mkConst (types.Basic types.String) (ir.CString [104; 105]))
      (emptyState runtimeModule) = (Ok v, s') /\
    typeOf v = NamedStruct "runtime._string" /\ code s' = [].
Proof.
  eexists _, _. split; [vm_compute; reflexivity|].
  destruct (parseConst_typed cortexM "main.greeting"
              (ir.mkConst (types.Basic types.String) (ir.CString [104; 105]))
              (emptyState runtimeModule) _ _ ltac:(vm_compute; reflexivity))
    as (Ht & Hc & _).
  split; [|exact Hc].
  apply (f_equal (fun r => match r with Ok t => t | _ => NilType end)) in Ht.
  symmetry. exact Ht.
Defined.






































End CompilerProofs.
